(** * marked-toc: the TOC generation pipeline of [index.js]

    A shallow embedding of [generate], [toc], [toc.raw] and [toc.insert]
    together with the properties of the pipeline: first-token exclusion,
    depth rebasing, omission, the [maxDepth] cutoff, record building,
    template rendering and marker-driven insertion.

    The libraries the module requires ([marked], [gray-matter], [uslug],
    [striptags]) and the repository's own [lib/utils.js] are collaborators:
    the embedding takes them as one record of functions and every general
    theorem quantifies over it. *)

From Stdlib Require Import ZArith String Ascii List Bool Lia.
From stdpp Require Import base option list strings gmap pretty.

Local Open Scope string_scope.
Local Open Scope list_scope.
Local Open Scope Z_scope.

(** ** JavaScript values and abrupt completion *)

(** The property values a render context can hold: strings, and
    integers of a magnitude that prints in plain decimal. *)
Inductive jsval : Type :=
  | JStr (s : string)
  | JNum (n : Z).

#[global] Instance jsval_eq_dec : EqDecision jsval.
Proof. solve_decision. Defined.

(** The errors the pipeline can throw. *)
Inductive js_error : Type :=
  | RangeError
  | ReferenceError (name : string).

(** A computation either completes with a value or throws. *)
Inductive completion (A : Type) : Type :=
  | Normal (a : A)
  | Throw (e : js_error).
Arguments Normal {A} a.
Arguments Throw {A} e.

#[global] Instance completion_ret : MRet completion := @Normal.

#[global] Instance completion_bind : MBind completion :=
  fun A B (k : A -> completion B) (c : completion A) =>
    match c with
    | Normal a => k a
    | Throw e => Throw e
    end.

(** Whether an optional property is set to a truthy object. *)
Definition is_set {A : Type} (x : option A) : bool :=
  match x with
  | Some _ => true
  | None => false
  end.

(** ** Strings *)

Fixpoint spaces (n : nat) : string :=
  match n with
  | O => ""
  | S n' => String " " (spaces n')
  end.

(** [new Array(n).join(' ')]: the constructor throws a RangeError unless
    [n] is an array length (an integer in [0, 2^32 - 1]); joining [n] empty
    slots with one space gives [n - 1] spaces, and the empty string for
    [n = 0]. *)
Definition new_Array_join_space (n : Z) : completion string :=
  if (0 <=? n) && (n <? 2 ^ 32)
  then Normal (spaces (Z.to_nat (n - 1)))
  else Throw RangeError.

(** [a % b] on integers: the remainder has the sign of the dividend, and
    a zero divisor gives NaN ([None]). *)
Definition js_rem (a b : Z) : option Z :=
  if b =? 0 then None else Some (Z.rem a b).

(** [arr[i]] for a number [i]: NaN and negative keys name no element
    ([undefined] is [None]); [-0] is the key [0]. *)
Definition array_get {A : Type} (arr : list A) (i : option Z) : option A :=
  match i with
  | None => None
  | Some k => if k <? 0 then None else arr !! Z.to_nat k
  end.

(** [_.union([], xs, ys)]: the unique values of the arrays, first
    occurrences kept, in order. *)
Fixpoint uniq_from (seen l : list string) : list string :=
  match l with
  | [] => []
  | x :: l' =>
      if bool_decide (x ∈ seen) then uniq_from seen l'
      else x :: uniq_from (x :: seen) l'
  end.

Definition union (xs ys : list string) : list string :=
  uniq_from [] (xs ++ ys).

Definition concat_strings (l : list string) : string :=
  foldr String.append "" l.

(** ** Tokens *)

(** The block types of the lexer other than headings. *)
Inductive block_type : Type :=
  | ty_space | ty_code | ty_table | ty_hr | ty_blockquote_start
  | ty_blockquote_end | ty_list_start | ty_list_item_start
  | ty_loose_item_start | ty_list_item_end | ty_list_end | ty_html
  | ty_paragraph | ty_text.

(** A lexer token. Only heading tokens carry a [depth]. *)
Inductive token : Type :=
  | Heading (depth : Z) (text : string)
  | Block (type : block_type).

(** [_.any(tokens, {depth: 1})] *)
Definition has_depth_1 (t : token) : bool :=
  match t with
  | Heading depth _ => depth =? 1
  | Block _ => false
  end.

Definition any_depth_1 (tokens : list token) : bool :=
  existsb has_depth_1 tokens.

(** A heading token after the filter callback has set [depth], [heading]
    and [id] on it. *)
Record heading : Type := mkHeading {
  h_depth : Z;
  h_text : string;
  h_heading : string;
  h_id : string
}.

(** ** Templates *)

(** A template as its parts: literal text, which holds no template
    delimiter, and [<%= name %>] interpolations of one identifier. *)
Inductive tpart : Type :=
  | TText (s : string)
  | TInterp (name : string).

Definition template : Type := list tpart.

(** ['<%= depth %><%= bullet %>[<%= heading %>](#<%= url %>)\n'] *)
Definition LF : ascii := ascii_of_nat 10.
Definition nl : string := String LF "".

Definition defaultTemplate : template :=
  [TInterp "depth"; TInterp "bullet"; TText "["; TInterp "heading";
   TText "](#"; TInterp "url"; TText (")" +:+ nl)].

(** The template whose source text is the empty string, which is falsy. *)
Definition template_source_empty (t : template) : bool :=
  forallb (fun p => match p with TText "" => true | _ => false end) t.

Definition show (v : jsval) : string :=
  match v with
  | JStr s => s
  | JNum n => pretty n
  end.

(** [_.template(t, data)] on the templates above, for names that are
    properties of the context or are bound nowhere: a property of the
    context is printed, and a name that nothing binds throws a
    ReferenceError. A name that the context lacks and the enclosing
    scope binds (a global, a property of [Object.prototype], a variable
    of the compiled template) is outside this definition. *)
Fixpoint render (t : template) (data : gmap string jsval)
  : completion string :=
  match t with
  | [] => Normal ""
  | TText s :: t' => rest ← render t' data; Normal (s +:+ rest)
  | TInterp name :: t' =>
      match data !! name with
      | Some v => rest ← render t' data; Normal (show v +:+ rest)
      | None => Throw (ReferenceError name)
      end
  end.

(** ** Options *)

Record slug_options : Type := { allowedChars : string }.

Inductive bullet_spec : Type :=
  | BulletString (s : string)
  | BulletArray (l : list string).

(** The options object after [_.extend(defaults, options)]. A field that
    has no default is absent ([None]) unless the caller sets it;
    [slugify = None] stands for the default closure, which calls the slug
    library with [opts.slugifyOptions]. *)
Record opts : Type := mkOpts {
  firsth1 : bool;
  blacklist : bool;
  omit : list string;
  maxDepth : Z;
  slugifyOptions : slug_options;
  slugify : option (string -> string);
  bullet : option bullet_spec;
  data : option (gmap string jsval);
  template_ : option template;
  strip : option (list string)
}.

Definition default_opts : opts := {|
  firsth1 := false;
  blacklist := true;
  omit := [];
  maxDepth := 3;
  slugifyOptions := {| allowedChars := "-" |};
  slugify := None;
  bullet := None;
  data := None;
  template_ := None;
  strip := None
|}.

(** The return value of [generate]. *)
Record toc_result : Type := mkResult {
  res_data : list (gmap string jsval);
  res_toc : string
}.

(** ** Collaborators *)

Record Libs : Type := mkLibs {
  (** [marked.lexer] *)
  lexer : string -> list token;
  (** [uslug] *)
  uslug : string -> slug_options -> string;
  (** [striptags] *)
  striptags : string -> string;
  (** [utils.strip] and [utils.isMatch] of [lib/utils.js] *)
  utils_strip : string -> opts -> string;
  utils_isMatch : list string -> string -> bool;
  (** [gray-matter]: the parsed file and [matter.stringify] *)
  fm_data : Type;
  matter : string -> fm_data * string;
  matter_stringify : string -> fm_data -> string
}.

(** ** [generate] *)

Definition omissions : list string :=
  ["Table of Contents"; "TOC"; "TABLE OF CONTENTS"].

Section Generate.
Variable L : Libs.

Definition opts_slugify (o : opts) (s : string) : string :=
  match slugify o with
  | Some f => f s
  | None => uslug L s (slugifyOptions o)
  end.

(** [opts.strip ? utils.strip(token.text, opts) : token.text] *)
Definition heading_text (o : opts) (text : string) : string :=
  if is_set (strip o) then utils_strip L text o else text.

(** The callback of [tokens.filter], with the fields it sets on a kept
    token; [None] when the callback returns a falsy value. *)
Definition filter_callback (o : opts) (h1 : bool) (t : token)
  : option heading :=
  match t with
  | Block _ => None
  | Heading depth text =>
      let depth := if h1 then depth else depth - 1 in
      let heading := heading_text o text in
      let id := opts_slugify o (striptags L text) in
      let omit := union (omit o) omissions in
      if utils_isMatch L omit heading then None
      else Some (mkHeading depth text heading id)
  end.

Definition pick_bullet (o : opts) (h : heading) : option string :=
  match bullet o with
  | Some (BulletArray l) =>
      array_get l (js_rem (h_depth h - 1) (Z.of_nat (length l)))
  | Some (BulletString s) => Some s
  | None => None
  end.

(** [bullet ? bullet : '* '] *)
Definition bullet_or_default (b : option string) : string :=
  match b with
  | Some "" | None => "* "
  | Some s => s
  end.

Definition opts_template (o : opts) : template :=
  match template_ o with
  | Some t => if template_source_empty t then defaultTemplate else t
  | None => defaultTemplate
  end.

(** The render context of one heading:
    [_.extend({}, opts.data, {depth, bullet, heading, url})]. *)
Definition build_record (o : opts) (h : heading)
  : completion (gmap string jsval) :=
  let bullet := pick_bullet o h in
  indent ← new_Array_join_space ((h_depth h - 1) * 2 + 1);
  Normal (<["url" := JStr (h_id h)]>
         (<["heading" := JStr (h_heading h)]>
         (<["bullet" := JStr (bullet_or_default bullet)]>
         (<["depth" := JStr indent]> (default ∅ (data o)))))).

(** One call of the [forEach] callback on the accumulators
    [tocArray] and [toc]. *)
Definition forEach_callback (o : opts)
    (acc : list (gmap string jsval) * string) (h : heading)
  : completion (list (gmap string jsval) * string) :=
  if maxDepth o <? h_depth h then Normal acc
  else
    data ← build_record o h;
    line ← render (opts_template o) data;
    Normal (acc.1 ++ [data], acc.2 +:+ line).

Fixpoint forEach (o : opts) (hs : list heading)
    (acc : list (gmap string jsval) * string)
  : completion (list (gmap string jsval) * string) :=
  match hs with
  | [] => Normal acc
  | h :: hs' => acc' ← forEach_callback o acc h; forEach o hs' acc'
  end.

(** The depth test of the callback and what it does to a heading
    that passes: the record and its rendered line. *)
Definition passes_depth (o : opts) (h : heading) : bool :=
  negb (maxDepth o <? h_depth h).

Definition build_line (o : opts) (h : heading)
  : completion (gmap string jsval * string) :=
  data ← build_record o h;
  line ← render (opts_template o) data;
  Normal (data, line).

(** [tokens.shift()] when [opts.firsth1 === false]. *)
Definition shift_first (o : opts) (tokens : list token) : list token :=
  if firsth1 o then tokens else tail tokens.

(** The headings that [tokens.filter] keeps, in document order. *)
Definition filtered (o : opts) (tokens : list token) : list heading :=
  omap (filter_callback o (any_depth_1 tokens)) tokens.

(** [generate] from the token stream on. *)
Definition generate_tokens (tokens : list token) (o : opts)
  : completion toc_result :=
  let tokens := shift_first o tokens in
  acc ← forEach o (filtered o tokens) ([], "");
  Normal {| res_data := acc.1;
            res_toc := if is_set (strip o) then utils_strip L acc.2 o else acc.2 |}.

Definition generate (str : string) (o : opts) : completion toc_result :=
  generate_tokens (lexer L str) o.

Definition toc (str : string) (o : opts) : completion string :=
  r ← generate str o; Normal (res_toc r).

Definition toc_raw (str : string) (o : opts) : completion toc_result :=
  generate str o.

End Generate.

(** ** String search and replacement *)

Fixpoint mem_char (c : ascii) (s : string) : bool :=
  match s with
  | "" => false
  | String a s' => Ascii.eqb c a || mem_char c s'
  end.

(** [strip_prefix p s] is the rest of [s] after the prefix [p]. *)
Fixpoint strip_prefix (p s : string) : option string :=
  match p with
  | "" => Some s
  | String a p' =>
      match s with
      | "" => None
      | String b s' => if Ascii.eqb a b then strip_prefix p' s' else None
      end
  end.

(** [split_first p s] cuts [s] at the first occurrence of [p]: the text
    before it and the text after it. *)
Fixpoint split_first (p s : string) : option (string * string) :=
  match strip_prefix p s with
  | Some r => Some ("", r)
  | None =>
      match s with
      | "" => None
      | String a s' =>
          match split_first p s' with
          | Some (b, r) => Some (String a b, r)
          | None => None
          end
      end
  end.

(** Where the search resumes after a stretch [u] in which the pattern
    does not begin, when a character that the pattern lacks follows. *)
Definition resume (u : string) (c : ascii) (found : option (string * string))
  : option (string * string) :=
  match found with
  | Some (b, r) => Some (u +:+ String c b, r)
  | None => None
  end.

(** The replacement text of [String.prototype.replace] for a string
    pattern, which has no capture groups: [$$] is a dollar sign, [$&] the
    matched text, [$`] the text before the match and [$'] the text after
    it; any other [$] stands for itself. *)
Fixpoint get_substitution (matched before after rep : string) : string :=
  match rep with
  | "" => ""
  | String a rep' =>
      if Ascii.eqb a "$" then
        match rep' with
        | "" => "$"
        | String c rest =>
            if Ascii.eqb c "$" then
              "$" +:+ get_substitution matched before after rest
            else if Ascii.eqb c "&" then
              matched +:+ get_substitution matched before after rest
            else if Ascii.eqb c "`" then
              before +:+ get_substitution matched before after rest
            else if Ascii.eqb c "'" then
              after +:+ get_substitution matched before after rest
            else String a (get_substitution matched before after rep')
        end
      else String a (get_substitution matched before after rep')
  end.

(** [s.replace(pattern, rep)] for a string [pattern]: the first
    occurrence only. *)
Definition js_replace_string (pattern rep s : string) : string :=
  match split_first pattern s with
  | None => s
  | Some (before, after) =>
      before +:+ get_substitution pattern before after rep +:+ after
  end.

(** ** [toc.insert] *)

Definition start : string := "<!-- toc -->".
Definition stop : string := "<!-- tocstop -->".

(** The first match of
    [re = /<!-- toc -->([\s\S]+?)<!-- tocstop -->/] in a text: the text
    before the match and the text after it.

    The expression matches from the first start marker that has a stop
    marker at least one character after its end (a later start marker
    can only match if the first one does), and the lazy group ends at
    the nearest such stop marker. *)
Definition region_match (content : string) : option (string * string) :=
  match split_first start content with
  | Some (pre, String _ rest) =>
      match split_first stop rest with
      | Some (_, post) => Some (pre, post)
      | None => None
      end
  | _ => None
  end.

(** [content.replace(re, start)]; the replacement has no [$]. *)
Definition remove_region (content : string) : string :=
  match region_match content with
  | Some (pre, post) => pre +:+ start +:+ post
  | None => content
  end.

Definition newtoc (t : string) : string :=
  nl +:+ nl +:+ start +:+ nl +:+ nl +:+ t +:+ nl +:+ stop +:+ nl.

Section Insert.
Variable L : Libs.

Definition insert (str : string) (o : opts) : completion string :=
  let file := matter L str in
  let content := remove_region file.2 in
  t ← toc L content o;
  let res := matter_stringify L content file.1 in
  Normal (js_replace_string start (newtoc t) res).

End Insert.

(** ** Concrete collaborators

    Small executable versions of the collaborators, used to run the
    pipeline on concrete documents. *)

Module StandIn.

Definition is_upper (c : ascii) : bool :=
  let n := nat_of_ascii c in (65 <=? n)%nat && (n <=? 90)%nat.

Definition is_lower (c : ascii) : bool :=
  let n := nat_of_ascii c in (97 <=? n)%nat && (n <=? 122)%nat.

Definition is_digit (c : ascii) : bool :=
  let n := nat_of_ascii c in (48 <=? n)%nat && (n <=? 57)%nat.

Definition in_string (c : ascii) (s : string) : bool :=
  existsb (Ascii.eqb c) (list_ascii_of_string s).

(** A slug for ASCII text: letters in lower case, digits and the
    allowed characters kept, a space as a hyphen, the rest dropped. *)
Fixpoint ascii_slug (s : string) (so : slug_options) : string :=
  match s with
  | "" => ""
  | String c s' =>
      if is_upper c
      then String (ascii_of_nat (nat_of_ascii c + 32)) (ascii_slug s' so)
      else if is_lower c || is_digit c || in_string c (allowedChars so)
      then String c (ascii_slug s' so)
      else if Ascii.eqb c " " then String "-" (ascii_slug s' so)
      else ascii_slug s' so
  end.

(** Removal of [<...>] tags. *)
Fixpoint striptags_from (in_tag : bool) (s : string) : string :=
  match s with
  | "" => ""
  | String c s' =>
      if in_tag then striptags_from (negb (Ascii.eqb c ">")) s'
      else if Ascii.eqb c "<" then striptags_from true s'
      else String c (striptags_from false s')
  end.

Definition strip_tags : string -> string := striptags_from false.

(** Modelled from the spec: [utils.strip] of [lib/utils.js], which is
    not part of the sources at hand; the spec describes it as the
    strip-tags transform applied to a heading text and to the rendered
    output when [options.strip] is set. *)
Definition strip_model (s : string) (o : opts) : string := strip_tags s.

(** Modelled from the spec: [utils.isMatch] of [lib/utils.js], which is
    not part of the sources at hand; the spec gives it the contract
    [isMatch(patterns, candidate)] and exact string equality as the
    default matching policy. *)
Definition isMatch_exact (patterns : list string) (s : string) : bool :=
  bool_decide (s ∈ patterns).

(** The lines of a text, cut at line feeds. *)
Fixpoint lines_from (cur : string) (s : string) : list string :=
  match s with
  | "" => [String.rev cur]
  | String c s' =>
      if Ascii.eqb c (ascii_of_nat 10)
      then String.rev cur :: lines_from "" s'
      else lines_from (String c cur) s'
  end.

Fixpoint drop_spaces (s : string) : string :=
  match s with
  | String " " s' => drop_spaces s'
  | _ => s
  end.

(** The number of leading [#] of a line and what follows them. *)
Fixpoint hashes (s : string) : Z * string :=
  match s with
  | String "#" s' => let '(n, r) := hashes s' in (n + 1, r)
  | _ => (0, s)
  end.

(** One line as a block: blank lines give no token, a line of one to
    six [#] and a text is a heading, a line that opens with [<] is
    html, any other line is a paragraph. *)
Definition lex_line (l : string) : list token :=
  match l with
  | "" => []
  | String "<" _ => [Block ty_html]
  | _ =>
      let '(n, r) := hashes l in
      if (1 <=? n) && (n <=? 6) && negb (String.eqb (drop_spaces r) "")
      then [Heading n (drop_spaces r)]
      else [Block ty_paragraph]
  end.

(** A line lexer for documents whose blocks are one line each. *)
Definition line_lexer (s : string) : list token :=
  flat_map lex_line (lines_from "" s).

Definition fence : string := "---" +:+ nl.

(** A front-matter codec that keeps the metadata as the text between
    the two [---] lines. *)
Definition fm_parse (s : string) : option string * string :=
  match strip_prefix fence s with
  | None => (None, s)
  | Some r =>
      match split_first (nl +:+ fence) r with
      | None => (None, s)
      | Some (yaml, body) => (Some (yaml +:+ nl), body)
      end
  end.

Definition fm_stringify (content : string) (d : option string)
  : string :=
  match d with
  | None => content
  | Some yaml => fence +:+ yaml +:+ fence +:+ content
  end.

(** The same codec with a line feed written after the body. *)
Definition fm_stringify_lf (content : string) (d : option string)
  : string :=
  fm_stringify content d +:+ nl.

Definition libs : Libs := {|
  lexer := line_lexer;
  uslug := ascii_slug;
  striptags := strip_tags;
  utils_strip := strip_model;
  utils_isMatch := isMatch_exact;
  fm_data := option string;
  matter := fm_parse;
  matter_stringify := fm_stringify
|}.

Definition libs_lf : Libs := {|
  lexer := line_lexer;
  uslug := ascii_slug;
  striptags := strip_tags;
  utils_strip := strip_model;
  utils_isMatch := isMatch_exact;
  fm_data := option string;
  matter := fm_parse;
  matter_stringify := fm_stringify_lf
|}.

End StandIn.

(** ** Example documents and options *)

(** ["# Title\n\n## A\n\n### B\n\n## C\n"] *)
Definition example_doc : string :=
  "# Title" +:+ nl +:+ nl +:+ "## A" +:+ nl +:+ nl +:+ "### B" +:+ nl +:+ nl
  +:+ "## C" +:+ nl.

Definition example_tokens : list token :=
  [Heading 1 "Title"; Heading 2 "A"; Heading 3 "B"; Heading 2 "C"].

(** A token stream that keeps a level-1 heading after the exclusion. *)
Definition two_titles_tokens : list token :=
  [Heading 1 "T"; Heading 1 "U"; Heading 2 "V"].

(** The option objects [{maxDepth: n}], [{bullet: b}] and [{omit: l}]
    merged over an options record. *)
Definition set_maxDepth (n : Z) (o : opts) : opts :=
  mkOpts (firsth1 o) (blacklist o) (omit o) n (slugifyOptions o)
         (slugify o) (bullet o) (data o) (template_ o) (strip o).

Definition set_bullet (b : option bullet_spec) (o : opts) : opts :=
  mkOpts (firsth1 o) (blacklist o) (omit o) (maxDepth o) (slugifyOptions o)
         (slugify o) b (data o) (template_ o) (strip o).

Definition set_omit (l : list string) (o : opts) : opts :=
  mkOpts (firsth1 o) (blacklist o) l (maxDepth o) (slugifyOptions o)
         (slugify o) (bullet o) (data o) (template_ o) (strip o).

(** The render context [{depth, bullet, heading, url}]. *)
Definition context (depth bullet heading url : string)
  : gmap string jsval :=
  <["url" := JStr url]>
    (<["heading" := JStr heading]>
       (<["bullet" := JStr bullet]> (<["depth" := JStr depth]> ∅))).

(** The collaborators agree with the slug library on the headings of
    the example: tags stripped and slugged, ["A"] is ["a"] and so on, and
    none of the three is matched by the built-in omissions. *)
Definition example_contract (L : Libs) : Prop :=
  lexer L example_doc = example_tokens /\
  Forall (fun '(s, u) =>
            uslug L (striptags L s) {| allowedChars := "-" |} = u /\
            utils_isMatch L omissions s = false)
         [("A", "a"); ("B", "b"); ("C", "c")].

(** A document with a start marker and no generated table yet. *)
Definition marker_doc : string :=
  "# T" +:+ nl +:+ nl +:+ start +:+ nl +:+ nl +:+ "## A" +:+ nl.

(** A document whose front matter mentions the start marker and whose
    body has no marker. *)
Definition front_matter_doc : string :=
  "---" +:+ nl +:+ "title: <!-- toc -->" +:+ nl +:+ "---" +:+ nl
  +:+ "# Doc" +:+ nl.

(** The records the specification lists for the example: a numeric
    [depth] next to the heading. *)
Definition spec_example_depths : list (option jsval) :=
  [Some (JNum 1); Some (JNum 2); Some (JNum 1)].

Definition depth_fields (r : toc_result) : list (option jsval) :=
  map (fun rec : gmap string jsval => rec !! "depth") (res_data r).

(** A token survives the filter pass when it is a heading whose display
    text the omission set does not match. *)
Definition survives (L : Libs) (o : opts) (t : token) : bool :=
  match t with
  | Heading _ txt =>
      negb (utils_isMatch L (union (omit o) omissions) (heading_text L o txt))
  | Block _ => false
  end.

(** The rebased depth of a surviving heading [h] that stems from the
    token [t], as a shift of the depth of [t]. *)
Definition rebased_by (shift : Z) (t : token) (h : heading) : Prop :=
  exists d txt, t = Heading d txt /\ h_text h = txt /\ h_depth h = d - shift.

(** The final pass over the rendered text. *)
Definition final_strip (L : Libs) (o : opts) (s : string) : string :=
  if is_set (strip o) then utils_strip L s o else s.

(** [marker_doc] after one call of [insert] and after a second call on
    that output. *)
Definition marker_doc_once : string :=
  "# T" +:+ nl +:+ nl +:+ newtoc ("* [A](#a)" +:+ nl) +:+ nl +:+ nl
  +:+ "## A" +:+ nl.

Definition marker_doc_twice : string :=
  "# T" +:+ nl +:+ nl +:+ nl +:+ nl +:+ newtoc ("* [A](#a)" +:+ nl)
  +:+ nl +:+ nl +:+ nl +:+ "## A" +:+ nl.

(** [front_matter_doc] after [insert]: the block stands in the front
    matter. *)
Definition front_matter_doc_out : string :=
  "---" +:+ nl +:+ "title: " +:+ newtoc "" +:+ nl +:+ "---" +:+ nl
  +:+ "# Doc" +:+ nl.

(** ** The listing in closed form *)

(** The headings that get a record: kept by the filter pass and within
    [maxDepth]. *)
Definition listed (L : Libs) (o : opts) (tokens : list token)
  : list heading :=
  List.filter (passes_depth o) (filtered L o (shift_first o tokens)).

(** The record of a heading, with the indent written out. *)
Definition record_for (o : opts) (h : heading) : gmap string jsval :=
  <["url" := JStr (h_id h)]>
    (<["heading" := JStr (h_heading h)]>
       (<["bullet" := JStr (bullet_or_default (pick_bullet o h))]>
          (<["depth" := JStr (spaces (Z.to_nat ((h_depth h - 1) * 2)))]>
             (default ∅ (data o))))).

(** The line that the default template gives a heading. *)
Definition default_line (o : opts) (h : heading) : string :=
  spaces (Z.to_nat ((h_depth h - 1) * 2))
  +:+ bullet_or_default (pick_bullet o h)
  +:+ "[" +:+ h_heading h +:+ "](#" +:+ h_id h +:+ ")" +:+ nl.

(** The property names that [generate] sets on every record. *)
Definition own_fields : list string := ["depth"; "bullet"; "heading"; "url"].

Definition set_data (d : option (gmap string jsval)) (o : opts) : opts :=
  mkOpts (firsth1 o) (blacklist o) (omit o) (maxDepth o) (slugifyOptions o)
         (slugify o) (bullet o) d (template_ o) (strip o).

Definition set_strip (l : option (list string)) (o : opts) : opts :=
  mkOpts (firsth1 o) (blacklist o) (omit o) (maxDepth o) (slugifyOptions o)
         (slugify o) (bullet o) (data o) (template_ o) l.

(** ** [toc.add] *)

(** The second argument of [toc.add]: left out, a path, or an options
    object. *)
Inductive dest_arg : Type :=
  | DestUndefined
  | DestPath (p : string)
  | DestOptions (o : opts).

(** The files on disk, by path, and the argument lists of the calls of
    [console.log]. *)
Record world : Type := mkWorld {
  files : gmap string string;
  console : list (list string)
}.

(** What stops [toc.add]: [fs.readFileSync] on a path that names no
    file, [write.sync] on a destination that is not a path, or an error
    thrown by [toc.insert]. *)
Inductive add_error : Type :=
  | ENOENT (path : string)
  | BadPath
  | Uncaught (e : js_error).

Inductive outcome : Type :=
  | Done (w : world)
  | Failed (e : add_error).

(** [_.extend({strip: ['docs']}, options || {})] *)
Definition add_opts (options : option opts) : opts :=
  match options with
  | None => set_strip (Some ["docs"]) default_opts
  | Some o =>
      match strip o with
      | Some _ => o
      | None => set_strip (Some ["docs"]) o
      end
  end.

Section Add.
Variable L : Libs.
(** [utils.isDest] of [lib/utils.js] *)
Variable isDest : dest_arg -> bool.

Definition add (w : world) (fp : string) (dest : dest_arg)
    (options : option opts) : outcome :=
  let opts := add_opts options in
  match files w !! fp with
  | None => Failed (ENOENT fp)
  | Some content =>
      let dest := if isDest dest then DestPath fp else dest in
      match insert L content opts with
      | Throw e => Failed (Uncaught e)
      | Normal out =>
          match dest with
          | DestPath p =>
              Done {| files := <[p := out]> (files w);
                      console := console w ++ [[" Success: "; p]] |}
          | _ => Failed BadPath
          end
      end
  end.

End Add.

(** Modelled from the spec: [utils.isDest] of [lib/utils.js], which is
    not part of the sources at hand; the spec has the destination path
    optional, the source path taking its place when it is not given. *)
Definition isDest_model (dest : dest_arg) : bool :=
  match dest with
  | DestPath _ => false
  | _ => true
  end.

(** * Properties *)

(** ** Strings and lists *)

Lemma append_cons (a : ascii) (s t : string) :
  String a s +:+ t = String a (s +:+ t).
Proof. reflexivity. Qed.

Lemma append_nil_l (s : string) : "" +:+ s = s.
Proof. reflexivity. Qed.

Lemma append_assoc (s1 s2 s3 : string) :
  (s1 +:+ s2) +:+ s3 = s1 +:+ s2 +:+ s3.
Proof.
  induction s1 as [|a s1 IH]; [reflexivity |].
  by rewrite !append_cons, IH.
Qed.

Lemma append_nil_r (s : string) : s +:+ "" = s.
Proof.
  induction s as [|a s IH]; [reflexivity |].
  by rewrite append_cons, IH.
Qed.

Lemma concat_strings_app (l1 l2 : list string) :
  concat_strings (l1 ++ l2) = concat_strings l1 +:+ concat_strings l2.
Proof.
  induction l1 as [|x l1 IH]; [reflexivity |].
  change (x +:+ concat_strings (l1 ++ l2)
          = (x +:+ concat_strings l1) +:+ concat_strings l2).
  by rewrite IH, append_assoc.
Qed.

Lemma uniq_from_elem_of (l seen : list string) (s : string) :
  s ∈ l -> s ∈ seen \/ s ∈ uniq_from seen l.
Proof.
  revert seen. induction l as [|x l IH]; intros seen Hin.
  - by apply elem_of_nil in Hin.
  - simpl. apply elem_of_cons in Hin as [-> | Hin].
    + case_bool_decide; [by left | right; apply elem_of_cons; by left].
    + case_bool_decide.
      * apply IH, Hin.
      * destruct (IH (x :: seen) Hin) as [Hs | Hs].
        -- apply elem_of_cons in Hs as [-> | Hs];
             [right; apply elem_of_cons; by left | by left].
        -- right. apply elem_of_cons; by right.
Qed.

Lemma union_elem_of (xs ys : list string) (s : string) :
  s ∈ xs ++ ys -> s ∈ union xs ys.
Proof.
  intros Hin. destruct (uniq_from_elem_of _ [] _ Hin) as [H | H]; [|done].
  by apply elem_of_nil in H.
Qed.

Lemma union_nil_omissions : union [] omissions = omissions.
Proof. reflexivity. Qed.

(** ** The filter pass and the [forEach] loop *)

Section Pipeline.
Variable L : Libs.

Lemma filter_callback_Some (o : opts) (h1 : bool) (t : token) (h : heading) :
  filter_callback L o h1 t = Some h <->
  exists d txt,
    t = Heading d txt /\
    utils_isMatch L (union (omit o) omissions) (heading_text L o txt)
      = false /\
    h = mkHeading (if h1 then d else d - 1) txt (heading_text L o txt)
          (opts_slugify L o (striptags L txt)).
Proof.
  split.
  - destruct t as [d txt|ty]; simpl; [|discriminate].
    destruct (utils_isMatch L _ _) eqn:Hm; [discriminate |].
    intros [= <-]. by exists d, txt.
  - intros (d & txt & -> & Hm & ->). simpl. by rewrite Hm.
Qed.

Lemma elem_of_filtered (o : opts) (tokens : list token) (h : heading) :
  h ∈ filtered L o tokens <->
  exists t, t ∈ tokens /\
            filter_callback L o (any_depth_1 tokens) t = Some h.
Proof. unfold filtered. apply list_elem_of_omap. Qed.

Lemma any_depth_1_true (tokens : list token) :
  any_depth_1 tokens = true <-> exists txt, Heading 1 txt ∈ tokens.
Proof.
  unfold any_depth_1. rewrite existsb_exists. split.
  - intros ([d txt|ty] & Hin & Hd); simpl in Hd; [|discriminate].
    apply Z.eqb_eq in Hd as ->. exists txt. by apply list_elem_of_In.
  - intros (txt & Hin). exists (Heading 1 txt).
    split; [by apply list_elem_of_In | reflexivity].
Qed.

Lemma any_depth_1_false (tokens : list token) :
  any_depth_1 tokens = false <-> forall txt, Heading 1 txt ∉ tokens.
Proof.
  rewrite <- not_true_iff_false, any_depth_1_true. split.
  - intros Hn txt Hin. apply Hn. by exists txt.
  - intros Hn (txt & Hin). by apply (Hn txt).
Qed.

Lemma forEach_callback_eq (o : opts)
    (acc : list (gmap string jsval) * string) (h : heading) :
  forEach_callback o acc h =
  if passes_depth o h
  then dl ← build_line o h; Normal (acc.1 ++ [dl.1], acc.2 +:+ dl.2)
  else Normal acc.
Proof.
  unfold forEach_callback, passes_depth, build_line.
  destruct (maxDepth o <? h_depth h); cbn; [reflexivity |].
  destruct (build_record o h) as [rec|e]; cbn; [|reflexivity].
  destruct (render (opts_template o) rec) as [line|e]; reflexivity.
Qed.

(** The loop is a filter on the depth test followed by a map that
    builds and renders each remaining heading, in order. *)
Lemma forEach_eq (o : opts) (hs : list heading)
    (acc : list (gmap string jsval) * string) :
  forEach o hs acc =
  rl ← mapM (build_line o) (List.filter (passes_depth o) hs);
  Normal (acc.1 ++ rl.*1, acc.2 +:+ concat_strings rl.*2).
Proof.
  revert acc. induction hs as [|h hs IH]; intros [recs t].
  - cbn. by rewrite app_nil_r, append_nil_r.
  - cbn [forEach List.filter]. rewrite forEach_callback_eq.
    destruct (passes_depth o h); cbn [mbind completion_bind].
    + cbn [mapM]. destruct (build_line o h) as [[rec line]|e]; cbn;
        [|reflexivity].
      rewrite IH. cbn.
      destruct (mapM (build_line o) _) as [rl|e]; cbn; [|reflexivity].
      by rewrite <- app_assoc, append_assoc.
    + apply IH.
Qed.

Lemma generate_tokens_eq (tokens : list token) (o : opts) :
  generate_tokens L tokens o =
  rl ← mapM (build_line o)
       (List.filter (passes_depth o)
          (filtered L o (shift_first o tokens)));
  Normal {| res_data := rl.*1;
            res_toc := final_strip L o (concat_strings rl.*2) |}.
Proof.
  unfold generate_tokens, final_strip. rewrite forEach_eq.
  destruct (mapM (build_line o) _) as [rl|e]; reflexivity.
Qed.

End Pipeline.

(** ** The worked example *)

Lemma example_filtered (L : Libs) (n : Z) :
  example_contract L ->
  let o := set_maxDepth n default_opts in
  filtered L o (shift_first o (lexer L example_doc))
  = [mkHeading 1 "A" "A" "a"; mkHeading 2 "B" "B" "b";
     mkHeading 1 "C" "C" "c"].
Proof.
  intros [Hlex Hc] o. rewrite Hlex.
  repeat (apply Forall_cons in Hc as [[? ?] Hc]).
  unfold filtered, example_tokens, shift_first, o;
    cbn [firsth1 set_maxDepth default_opts tail].
  cbn [omap list_omap filter_callback any_depth_1 existsb has_depth_1
       Z.eqb Pos.eqb orb omit set_maxDepth default_opts heading_text
       is_set strip].
  rewrite union_nil_omissions.
  unfold opts_slugify; cbn [slugify slugifyOptions set_maxDepth default_opts].
  repeat match goal with H : _ = _ |- _ => rewrite H end.
  reflexivity.
Qed.

(** C1 (as amended): with the default options, [toc.raw] on the example
    document returns three records whose [depth] field is the indent
    string of the rebased depths 1, 2 and 1 (the empty string, two
    spaces, the empty string), with the bullet ["* "], the headings A, B
    and C and their slugs, and the rendered text
    ["* [A](#a)\n  * [B](#b)\n* [C](#c)\n"]. *)
Theorem toc_raw_example (L : Libs) :
  example_contract L ->
  toc_raw L example_doc default_opts
  = Normal {| res_data := [context "" "* " "A" "a";
                           context "  " "* " "B" "b";
                           context "" "* " "C" "c"];
              res_toc := "* [A](#a)" +:+ nl +:+ "  * [B](#b)" +:+ nl
                         +:+ "* [C](#c)" +:+ nl |}
  /\ map (fun h => (h_heading h, h_depth h))
         (filtered L default_opts
            (shift_first default_opts (lexer L example_doc)))
     = [("A", 1); ("B", 2); ("C", 1)].
Proof.
  intros Hc. pose proof (example_filtered L 3 Hc) as Hf. cbn zeta in Hf.
  change (set_maxDepth 3 default_opts) with default_opts in Hf.
  split; [|by rewrite Hf].
  unfold toc_raw, generate, generate_tokens. rewrite Hf.
  vm_compute. reflexivity.
Qed.

Lemma standin_example_contract : example_contract StandIn.libs.
Proof.
  split; [vm_compute; reflexivity |].
  repeat constructor; vm_compute; reflexivity.
Defined.

Lemma toc_raw_example_witness :
  example_contract StandIn.libs /\
  toc_raw StandIn.libs example_doc default_opts
  = Normal {| res_data := [context "" "* " "A" "a";
                           context "  " "* " "B" "b";
                           context "" "* " "C" "c"];
              res_toc := "* [A](#a)" +:+ nl +:+ "  * [B](#b)" +:+ nl
                         +:+ "* [C](#c)" +:+ nl |}.
Proof.
  split; [exact standin_example_contract |].
  exact (proj1 (toc_raw_example StandIn.libs standin_example_contract)).
Defined.

(** C1 (as stated) fails: the [depth] field of the three records holds
    the indent strings, not the numbers 1, 2 and 1. *)
Lemma toc_raw_example_depth_is_indent :
  (r ← toc_raw StandIn.libs example_doc default_opts;
   Normal (depth_fields r))
  = Normal [Some (JStr ""); Some (JStr "  "); Some (JStr "")]
  /\ (r ← toc_raw StandIn.libs example_doc default_opts;
      Normal (depth_fields r))
     <> Normal spec_example_depths.
Proof.
  assert (H : (r ← toc_raw StandIn.libs example_doc default_opts;
               Normal (depth_fields r))
              = Normal [Some (JStr ""); Some (JStr "  "); Some (JStr "")])
    by (vm_compute; reflexivity).
  split; [exact H |]. rewrite H. discriminate.
Qed.

(** ** Depth rebasing *)

Section Rebasing.
Variable L : Libs.
Variable o : opts.

Lemma filtered_rebased (h1 : bool) (tokens : list token) :
  Forall2 (rebased_by (if h1 then 0 else 1))
          (List.filter (survives L o) tokens)
          (omap (filter_callback L o h1) tokens).
Proof.
  induction tokens as [|[d txt|ty] tokens IH]; cbn; [constructor | | exact IH].
  destruct (utils_isMatch L _ _); cbn; [exact IH |].
  constructor; [|exact IH].
  exists d, txt. repeat split. cbn. destruct h1; lia.
Qed.

(** Where a filtered heading comes from. *)
Lemma filtered_origin (tokens : list token) (h : heading) :
  h ∈ filtered L o tokens ->
  exists d txt,
    Heading d txt ∈ tokens /\
    h_depth h = (if any_depth_1 tokens then d else d - 1) /\
    (any_depth_1 tokens = false -> d <> 1).
Proof.
  intros Hh. apply elem_of_filtered in Hh as (t & Hin & Hcb).
  apply filter_callback_Some in Hcb as (d & txt & -> & _ & ->).
  exists d, txt. repeat split; [done |].
  intros Hno ->. by apply any_depth_1_false with (txt := txt) in Hno.
Qed.

Lemma shift_first_subseteq (tokens : list token) (t : token) :
  t ∈ shift_first o tokens -> t ∈ tokens.
Proof.
  unfold shift_first. destruct (firsth1 o); [done |].
  destruct tokens as [|t0 tokens]; cbn; [done |].
  intros Hin. apply elem_of_cons. by right.
Qed.

End Rebasing.

(** C2: the rebasing decision is one flag for the whole document, taken
    from the tokens that remain after the first-token exclusion: when no
    level-1 heading remains every heading that survives the filter pass
    has its original depth minus 1, when one remains every such heading
    keeps its original depth; the [maxDepth] test then runs on these
    rebased depths. *)
Theorem rebasing_uniform (L : Libs) (o : opts) (tokens : list token) :
  let remaining := shift_first o tokens in
  let survivors := List.filter (survives L o) remaining in
  ((forall txt, Heading 1 txt ∉ remaining) ->
   Forall2 (rebased_by 1) survivors (filtered L o remaining)) /\
  ((exists txt, Heading 1 txt ∈ remaining) ->
   Forall2 (rebased_by 0) survivors (filtered L o remaining)) /\
  generate_tokens L tokens o =
    rl ← mapM (build_line o)
         (List.filter (passes_depth o) (filtered L o remaining));
    Normal {| res_data := rl.*1;
              res_toc := final_strip L o (concat_strings rl.*2) |}.
Proof.
  intros remaining survivors. repeat split.
  - intros Hno. apply any_depth_1_false in Hno.
    pose proof (filtered_rebased L o false remaining) as H.
    unfold filtered. by rewrite Hno.
  - intros Hsome. apply any_depth_1_true in Hsome.
    pose proof (filtered_rebased L o true remaining) as H.
    unfold filtered. by rewrite Hsome.
  - apply generate_tokens_eq.
Qed.

Lemma rebasing_uniform_witness :
  let remaining := shift_first default_opts example_tokens in
  let remaining' := shift_first default_opts two_titles_tokens in
  ((forall txt, Heading 1 txt ∉ remaining) /\
   Forall2 (rebased_by 1)
           (List.filter (survives StandIn.libs default_opts) remaining)
           (filtered StandIn.libs default_opts remaining)) /\
  ((exists txt, Heading 1 txt ∈ remaining') /\
   Forall2 (rebased_by 0)
           (List.filter (survives StandIn.libs default_opts) remaining')
           (filtered StandIn.libs default_opts remaining')).
Proof.
  intros remaining remaining'.
  assert (Hno : forall txt, Heading 1 txt ∉ remaining).
  { intros txt Hin. vm_compute in Hin.
    repeat (apply elem_of_cons in Hin as [Hin | Hin]; [discriminate |]).
    by apply elem_of_nil in Hin. }
  assert (Hsome : exists txt, Heading 1 txt ∈ remaining').
  { exists "U". apply elem_of_cons. by left. }
  split.
  - split; [exact Hno |].
    exact (proj1 (rebasing_uniform StandIn.libs default_opts example_tokens)
                 Hno).
  - split; [exact Hsome |].
    exact (proj1 (proj2 (rebasing_uniform StandIn.libs default_opts
                           two_titles_tokens)) Hsome).
Defined.

(** ** Record building *)

Lemma spaces_length (n : nat) : String.length (spaces n) = n.
Proof. induction n as [|n IH]; cbn; [reflexivity | by rewrite IH]. Qed.

Lemma new_Array_join_space_Normal (n : Z) :
  0 <= n < 2 ^ 32 ->
  new_Array_join_space n = Normal (spaces (Z.to_nat (n - 1))).
Proof.
  intros [H0 H1]. unfold new_Array_join_space.
  apply Z.leb_le in H0. apply Z.ltb_lt in H1. by rewrite H0, H1.
Qed.

Lemma new_Array_join_space_Throw (n : Z) :
  n < 0 -> new_Array_join_space n = Throw RangeError.
Proof.
  intros H. unfold new_Array_join_space.
  apply Z.leb_gt in H. by rewrite H.
Qed.

Lemma new_Array_join_space_inv (n : Z) (s : string) :
  new_Array_join_space n = Normal s ->
  0 <= n /\ s = spaces (Z.to_nat (n - 1)).
Proof.
  unfold new_Array_join_space.
  destruct (0 <=? n) eqn:H0; cbn; [|discriminate].
  destruct (n <? 2 ^ 32); [|discriminate].
  intros [= <-]. apply Z.leb_le in H0. done.
Qed.

(** What a record holds once it is built. *)
Lemma build_record_fields (o : opts) (h : heading) (rec : gmap string jsval) :
  build_record o h = Normal rec ->
  1 <= h_depth h /\
  rec !! "depth" = Some (JStr (spaces (Z.to_nat ((h_depth h - 1) * 2)))) /\
  rec !! "bullet" = Some (JStr (bullet_or_default (pick_bullet o h))) /\
  rec !! "heading" = Some (JStr (h_heading h)) /\
  rec !! "url" = Some (JStr (h_id h)).
Proof.
  unfold build_record.
  destruct (new_Array_join_space _) as [indent|e] eqn:Hi; cbn; [|discriminate].
  intros [= <-]. apply new_Array_join_space_inv in Hi as [H0 ->].
  split; [lia |].
  replace ((h_depth h - 1) * 2 + 1 - 1) with ((h_depth h - 1) * 2) by lia.
  repeat split; by simplify_map_eq.
Qed.

Lemma mapM_nil_c {A B : Type} (f : A -> completion B) :
  mapM f [] = Normal [].
Proof. reflexivity. Qed.

Lemma mapM_cons_c {A B : Type} (f : A -> completion B) (x : A) (l : list A) :
  mapM f (x :: l) =
  match f x with
  | Normal y =>
      match mapM f l with
      | Normal k => Normal (y :: k)
      | Throw e => Throw e
      end
  | Throw e => Throw e
  end.
Proof. cbn. destruct (f x); [|reflexivity]. reflexivity. Qed.

Lemma mapM_Normal_elem {A B : Type} (f : A -> completion B)
    (l : list A) (k : list B) (y : B) :
  mapM f l = Normal k -> y ∈ k -> exists x, x ∈ l /\ f x = Normal y.
Proof.
  revert k. induction l as [|x l IH]; intros k.
  - rewrite mapM_nil_c. intros [= <-] Hy. by apply elem_of_nil in Hy.
  - rewrite mapM_cons_c.
    destruct (f x) as [b|e] eqn:Hfx; [|discriminate].
    destruct (mapM f l) as [k'|e]; [|discriminate].
    intros [= <-] Hy. apply elem_of_cons in Hy as [-> | Hy].
    + exists x. split; [apply elem_of_cons; by left | done].
    + destruct (IH k' eq_refl Hy) as (x' & Hin & Hx').
      exists x'. split; [apply elem_of_cons; by right | done].
Qed.

Lemma mapM_build_line_records (o : opts) (hs : list heading)
    (rl : list (gmap string jsval * string)) :
  mapM (build_line o) hs = Normal rl ->
  mapM (build_record o) hs = Normal rl.*1 /\
  mapM (render (opts_template o)) rl.*1 = Normal rl.*2.
Proof.
  revert rl. induction hs as [|h hs IH]; intros rl.
  - rewrite !mapM_nil_c. by intros [= <-].
  - rewrite !mapM_cons_c. unfold build_line at 1.
    destruct (build_record o h) as [rec|e]; cbn; [|discriminate].
    destruct (render (opts_template o) rec) as [line|e] eqn:Hr; cbn;
      [|discriminate].
    destruct (mapM (build_line o) hs) as [rl'|e]; [|discriminate].
    intros [= <-]. destruct (IH rl' eq_refl) as [Hb Hl].
    rewrite Hb. cbn [fmap list_fmap fst snd].
    by rewrite mapM_cons_c, Hr, Hl.
Qed.

(** Every record of the result is built from a heading that the filter
    pass kept and that passed the depth test. *)
Lemma generate_tokens_record (L : Libs) (tokens : list token) (o : opts)
    (r : toc_result) (rec : gmap string jsval) :
  generate_tokens L tokens o = Normal r ->
  rec ∈ res_data r ->
  exists h, h ∈ filtered L o (shift_first o tokens) /\
            passes_depth o h = true /\
            build_record o h = Normal rec.
Proof.
  rewrite generate_tokens_eq.
  destruct (mapM (build_line o) _) as [rl|e] eqn:Hm; cbn; [|discriminate].
  intros [= <-]; cbn. intros Hin.
  apply mapM_build_line_records in Hm as [Hm _].
  destruct (mapM_Normal_elem _ _ _ _ Hm Hin) as (h & Hh & Hb).
  exists h. apply list_elem_of_In, filter_In in Hh as [Hh Hp].
  by rewrite list_elem_of_In.
Qed.

(** C10: on a token stream whose headings have depth at least 1, every
    heading that reaches record building has rebased depth at least 1:
    the flag is true as soon as a remaining token has depth 1, so depths
    are lowered only when every remaining heading has depth 2 or more;
    the indent length [(depth - 1) * 2] is never negative and the array
    constructor gets a valid length. *)
Theorem rebased_depth_positive (L : Libs) (o : opts) (tokens : list token) :
  (forall d txt, Heading d txt ∈ tokens -> 1 <= d) ->
  let remaining := shift_first o tokens in
  (any_depth_1 remaining = true <-> exists txt, Heading 1 txt ∈ remaining) /\
  (any_depth_1 remaining = false ->
   forall d txt, Heading d txt ∈ remaining -> 2 <= d) /\
  (forall h, h ∈ filtered L o remaining ->
     1 <= h_depth h /\ 0 <= (h_depth h - 1) * 2 /\
     (h_depth h <= 2 ^ 31 -> exists rec, build_record o h = Normal rec)).
Proof.
  intros Hpos remaining.
  assert (Hrem : forall d txt, Heading d txt ∈ remaining -> 1 <= d).
  { intros d txt Hin. apply (Hpos d txt).
    by apply (shift_first_subseteq o). }
  assert (Hlow : any_depth_1 remaining = false ->
                 forall d txt, Heading d txt ∈ remaining -> 2 <= d).
  { intros Hno d txt Hin. pose proof (Hrem d txt Hin) as Hd.
    destruct (decide (d = 1)) as [-> | Hne]; [|lia].
    by apply any_depth_1_false with (txt := txt) in Hno. }
  split; [apply any_depth_1_true |]. split; [exact Hlow |].
  intros h Hh.
  destruct (filtered_origin L o _ _ Hh) as (d & txt & Hin & Hd & _).
  assert (H1 : 1 <= h_depth h).
  { rewrite Hd. destruct (any_depth_1 remaining) eqn:Hflag.
    - by apply (Hrem d txt).
    - pose proof (Hlow eq_refl d txt Hin). lia. }
  split; [exact H1 |]. split; [lia |].
  intros Hmax. unfold build_record.
  rewrite new_Array_join_space_Normal by lia. cbn. eauto.
Qed.

Lemma example_tokens_positive :
  forall d txt, Heading d txt ∈ example_tokens -> 1 <= d.
Proof.
  intros d txt Hin. unfold example_tokens in Hin.
  repeat (apply elem_of_cons in Hin as [[= -> ->] | Hin]; [lia |]).
  by apply elem_of_nil in Hin.
Defined.

Lemma rebased_depth_positive_witness :
  (forall d txt, Heading d txt ∈ example_tokens -> 1 <= d) /\
  (forall h,
     h ∈ filtered StandIn.libs default_opts
           (shift_first default_opts example_tokens) ->
     1 <= h_depth h).
Proof.
  split; [exact example_tokens_positive |].
  intros h Hh.
  exact (proj1 (proj2 (proj2 (rebased_depth_positive StandIn.libs
           default_opts example_tokens example_tokens_positive)) h Hh)).
Defined.

(** ** First-token exclusion *)

(** C9: with [firsth1] false the first token of the stream is dropped
    whatever its type; the result of [toc.raw] does not depend on it, and
    every record of [data] stems from one of the other tokens, so that
    the leading heading never appears in [data]. *)
Theorem first_token_excluded (L : Libs) (o : opts) (str : string)
    (t : token) (ts : list token) :
  firsth1 o = false ->
  lexer L str = t :: ts ->
  shift_first o (lexer L str) = ts /\
  (forall t', toc_raw L str o = generate_tokens L (t' :: ts) o) /\
  (forall r rec,
     toc_raw L str o = Normal r -> rec ∈ res_data r ->
     exists d txt,
       Heading d txt ∈ ts /\
       rec !! "heading" = Some (JStr (heading_text L o txt)) /\
       rec !! "url" = Some (JStr (opts_slugify L o (striptags L txt)))) /\
  (forall d0 txt0 r rec,
     t = Heading d0 txt0 ->
     (forall d txt, Heading d txt ∈ ts ->
                    heading_text L o txt <> heading_text L o txt0) ->
     toc_raw L str o = Normal r -> rec ∈ res_data r ->
     rec !! "heading" <> Some (JStr (heading_text L o txt0))).
Proof.
  intros Hf Hlex.
  assert (Hshift : forall t', shift_first o (t' :: ts) = ts).
  { intros t'. unfold shift_first. by rewrite Hf. }
  assert (Hprov : forall r rec,
     toc_raw L str o = Normal r -> rec ∈ res_data r ->
     exists d txt,
       Heading d txt ∈ ts /\
       rec !! "heading" = Some (JStr (heading_text L o txt)) /\
       rec !! "url" = Some (JStr (opts_slugify L o (striptags L txt)))).
  { intros r rec Hr Hrec. unfold toc_raw, generate in Hr. rewrite Hlex in Hr.
    destruct (generate_tokens_record L _ _ _ _ Hr Hrec) as (h & Hh & _ & Hb).
    rewrite Hshift in Hh.
    apply elem_of_filtered in Hh as (t1 & Hin & Hcb).
    apply filter_callback_Some in Hcb as (d & txt & -> & _ & ->).
    apply build_record_fields in Hb as (_ & _ & _ & Hhead & Hurl).
    by exists d, txt. }
  split; [by rewrite Hlex, Hshift |]. split; [|split; [exact Hprov |]].
  - intros t'. unfold toc_raw, generate, generate_tokens.
    by rewrite Hlex, !Hshift.
  - intros d0 txt0 r rec -> Hother Hr Hrec Heq.
    destruct (Hprov r rec Hr Hrec) as (d & txt & Hin & Hhead & _).
    rewrite Hhead in Heq. injection Heq as Heq.
    by apply (Hother d txt).
Qed.

Lemma first_token_excluded_witness :
  firsth1 default_opts = false /\
  lexer StandIn.libs example_doc
  = Heading 1 "Title" :: [Heading 2 "A"; Heading 3 "B"; Heading 2 "C"] /\
  shift_first default_opts (lexer StandIn.libs example_doc)
  = [Heading 2 "A"; Heading 3 "B"; Heading 2 "C"].
Proof.
  split; [reflexivity |]. split; [vm_compute; reflexivity |].
  apply (first_token_excluded StandIn.libs default_opts example_doc
           (Heading 1 "Title")).
  - reflexivity.
  - vm_compute; reflexivity.
Defined.

(** ** Omission *)

(** C4: when the matcher accepts every candidate that is one of its
    patterns, a heading whose display text is an entry of [options.omit]
    or one of the built-in omissions is dropped by the filter pass
    whatever its depth: no record of [data] carries it, and the rendered
    text is made of the lines of the records of [data] alone. *)
Theorem omitted_never_listed (L : Libs) (o : opts) (tokens : list token)
    (s : string) :
  (forall ps x, x ∈ ps -> utils_isMatch L ps x = true) ->
  s ∈ omit o ++ omissions ->
  (forall h, h ∈ filtered L o (shift_first o tokens) -> h_heading h <> s) /\
  (forall r,
     generate_tokens L tokens o = Normal r ->
     (forall rec, rec ∈ res_data r -> rec !! "heading" <> Some (JStr s)) /\
     exists lines,
       mapM (render (opts_template o)) (res_data r) = Normal lines /\
       res_toc r = final_strip L o (concat_strings lines)).
Proof.
  intros Hexact Hs.
  assert (Hfil : forall h,
            h ∈ filtered L o (shift_first o tokens) -> h_heading h <> s).
  { intros h Hh Heq. apply elem_of_filtered in Hh as (t & _ & Hcb).
    apply filter_callback_Some in Hcb as (d & txt & _ & Hm & ->).
    cbn in Heq. rewrite Heq in Hm.
    rewrite (Hexact _ _ (union_elem_of _ _ _ Hs)) in Hm. discriminate. }
  split; [exact Hfil |]. intros r Hr. split.
  - intros rec Hrec Heq.
    destruct (generate_tokens_record L _ _ _ _ Hr Hrec) as (h & Hh & _ & Hb).
    apply build_record_fields in Hb as (_ & _ & _ & Hhead & _).
    rewrite Hhead in Heq. injection Heq as Heq. by apply (Hfil h).
  - rewrite generate_tokens_eq in Hr.
    destruct (mapM (build_line o) _) as [rl|e] eqn:Hm; [|discriminate].
    cbn in Hr. injection Hr as <-. cbn.
    apply mapM_build_line_records in Hm as [_ Hm]. by exists rl.*2.
Qed.

Lemma isMatch_exact_contract :
  forall ps x, x ∈ ps -> utils_isMatch StandIn.libs ps x = true.
Proof. intros ps x Hin. by apply bool_decide_eq_true_2. Defined.

Lemma omitted_never_listed_witness :
  (forall ps x, x ∈ ps -> utils_isMatch StandIn.libs ps x = true) /\
  "A" ∈ omit (set_omit ["A"] default_opts) ++ omissions /\
  (forall h,
     h ∈ filtered StandIn.libs (set_omit ["A"] default_opts)
           (shift_first (set_omit ["A"] default_opts) example_tokens) ->
     h_heading h <> "A").
Proof.
  assert (Hin : "A" ∈ omit (set_omit ["A"] default_opts) ++ omissions)
    by (apply elem_of_cons; by left).
  split; [exact isMatch_exact_contract |]. split; [exact Hin |].
  exact (proj1 (omitted_never_listed StandIn.libs (set_omit ["A"] default_opts)
                  example_tokens "A" isMatch_exact_contract Hin)).
Defined.

(** ** The depth cutoff *)

Lemma app_singleton_neq {A : Type} (l : list A) (x : A) : l ++ [x] <> l.
Proof.
  intros H. apply (f_equal length) in H. rewrite length_app in H.
  cbn in H. lia.
Qed.

(** C5: the cutoff is on the rebased depth. The callback leaves the
    accumulators alone exactly when the rebased depth exceeds
    [maxDepth], so [data] holds the records of the surviving headings of
    rebased depth at most [maxDepth], in order; with [maxDepth] not
    negative a rebased depth of 0 or less passes the test; and on the
    example document [maxDepth = 1] drops B and yields the lines of A
    and C. *)
Theorem maxDepth_cutoff (L : Libs) (o : opts) :
  (forall acc h,
     forEach_callback o acc h = Normal acc <-> maxDepth o < h_depth h) /\
  (forall tokens r,
     generate_tokens L tokens o = Normal r ->
     mapM (build_record o)
          (List.filter (fun h => h_depth h <=? maxDepth o)
                       (filtered L o (shift_first o tokens)))
     = Normal (res_data r)) /\
  (0 <= maxDepth o ->
   forall h, h_depth h <= 0 -> passes_depth o h = true) /\
  (example_contract L ->
   toc_raw L example_doc (set_maxDepth 1 default_opts)
   = Normal {| res_data := [context "" "* " "A" "a";
                            context "" "* " "C" "c"];
               res_toc := "* [A](#a)" +:+ nl +:+ "* [C](#c)" +:+ nl |}).
Proof.
  split; [|split; [|split]].
  - intros [recs t] h. rewrite forEach_callback_eq. unfold passes_depth.
    destruct (Z.ltb_spec (maxDepth o) (h_depth h)) as [Hlt | Hge]; cbn.
    + done.
    + split; [|lia].
      destruct (build_line o h) as [[rec line]|e]; cbn; [|discriminate].
      intros [= Hl _]. by apply app_singleton_neq in Hl.
  - intros tokens r. rewrite generate_tokens_eq.
    destruct (mapM (build_line o) _) as [rl|e] eqn:Hm; [|discriminate].
    cbn. intros [= <-]. cbn.
    apply mapM_build_line_records in Hm as [Hm _]. rewrite <- Hm.
    f_equal. apply filter_ext. intros h. unfold passes_depth.
    destruct (Z.ltb_spec (maxDepth o) (h_depth h)),
             (Z.leb_spec (h_depth h) (maxDepth o)); cbn; (done || lia).
  - intros Hmax h Hh. unfold passes_depth.
    destruct (Z.ltb_spec (maxDepth o) (h_depth h)); [lia | done].
  - intros Hc. pose proof (example_filtered L 1 Hc) as Hf. cbn zeta in Hf.
    unfold toc_raw, generate, generate_tokens. rewrite Hf.
    vm_compute. reflexivity.
Qed.

Lemma maxDepth_cutoff_witness :
  example_contract StandIn.libs /\
  toc_raw StandIn.libs example_doc (set_maxDepth 1 default_opts)
  = Normal {| res_data := [context "" "* " "A" "a";
                           context "" "* " "C" "c"];
              res_toc := "* [A](#a)" +:+ nl +:+ "* [C](#c)" +:+ nl |}.
Proof.
  split; [exact standin_example_contract |].
  exact (proj2 (proj2 (proj2 (maxDepth_cutoff StandIn.libs
                                (set_maxDepth 1 default_opts))))
               standin_example_contract).
Defined.

(** ** Indent and bullet *)




(** C8 (as amended): an empty [options.bullet] sequence raises no error:
    the element access gives [undefined], every record gets the default
    bullet ["* "], and the loop behaves as it does without the option. *)
Theorem empty_bullet_defaults (L : Libs) (o : opts) :
  bullet o = Some (BulletArray []) ->
  (forall h, pick_bullet o h = None) /\
  (forall h, build_record o h = build_record (set_bullet None o) h) /\
  (forall hs acc, forEach o hs acc = forEach (set_bullet None o) hs acc) /\
  (forall tokens r rec,
     generate_tokens L tokens o = Normal r -> rec ∈ res_data r ->
     rec !! "bullet" = Some (JStr "* ")).
Proof.
  intros Hb.
  assert (Hpick : forall h, pick_bullet o h = None).
  { intros h. unfold pick_bullet. by rewrite Hb. }
  assert (Hrec : forall h,
            build_record o h = build_record (set_bullet None o) h).
  { intros h. unfold build_record. by rewrite Hpick. }
  split; [exact Hpick |]. split; [exact Hrec |]. split.
  - intros hs. induction hs as [|h hs IH]; intros acc; [reflexivity |].
    cbn [forEach]. unfold forEach_callback.
    rewrite Hrec. cbn [maxDepth set_bullet].
    change (opts_template (set_bullet None o)) with (opts_template o).
    destruct (maxDepth o <? h_depth h); cbn; [apply IH |].
    destruct (build_record (set_bullet None o) h) as [rec|e]; cbn;
      [|reflexivity].
    destruct (render (opts_template o) rec) as [line|e]; cbn;
      [apply IH | reflexivity].
  - intros tokens r rec Hr Hin.
    destruct (generate_tokens_record L _ _ _ _ Hr Hin) as (h & _ & _ & Hbr).
    apply build_record_fields in Hbr as (_ & _ & Hbul & _).
    by rewrite Hbul, Hpick.
Qed.

Lemma empty_bullet_defaults_witness :
  bullet (set_bullet (Some (BulletArray [])) default_opts)
  = Some (BulletArray []) /\
  pick_bullet (set_bullet (Some (BulletArray [])) default_opts)
              (mkHeading 1 "A" "A" "a") = None.
Proof.
  split; [reflexivity |].
  exact (proj1 (empty_bullet_defaults StandIn.libs
                  (set_bullet (Some (BulletArray [])) default_opts)
                  eq_refl)
               (mkHeading 1 "A" "A" "a")).
Defined.

(** C8 (as stated) fails: with an empty bullet sequence generation
    completes, with the default bullet. *)
Lemma empty_bullet_no_error :
  toc_raw StandIn.libs example_doc
          (set_bullet (Some (BulletArray [])) default_opts)
  = Normal {| res_data := [context "" "* " "A" "a";
                           context "  " "* " "B" "b";
                           context "" "* " "C" "c"];
              res_toc := "* [A](#a)" +:+ nl +:+ "  * [B](#b)" +:+ nl
                         +:+ "* [C](#c)" +:+ nl |}
  /\ forall e,
       toc_raw StandIn.libs example_doc
               (set_bullet (Some (BulletArray [])) default_opts)
       <> Throw e.
Proof.
  assert (H : toc_raw StandIn.libs example_doc
                (set_bullet (Some (BulletArray [])) default_opts)
              = Normal {| res_data := [context "" "* " "A" "a";
                                       context "  " "* " "B" "b";
                                       context "" "* " "C" "c"];
                          res_toc := "* [A](#a)" +:+ nl +:+ "  * [B](#b)"
                                     +:+ nl +:+ "* [C](#c)" +:+ nl |})
    by (vm_compute; reflexivity).
  split; [exact H |]. intros e. rewrite H. discriminate.
Qed.

(** ** String search *)

Lemma length_append (s t : string) :
  String.length (s +:+ t) = (String.length s + String.length t)%nat.
Proof.
  induction s as [|a s IH]; [reflexivity |].
  rewrite append_cons. cbn. by rewrite IH.
Qed.

Lemma mem_char_app (c : ascii) (s t : string) :
  mem_char c (s +:+ t) = mem_char c s || mem_char c t.
Proof.
  induction s as [|a s IH]; [reflexivity |].
  rewrite append_cons. cbn. rewrite IH. by destruct (Ascii.eqb c a).
Qed.

Lemma strip_prefix_app (p r : string) : strip_prefix p (p +:+ r) = Some r.
Proof.
  induction p as [|a p IH]; [reflexivity |].
  rewrite append_cons. cbn. by rewrite Ascii.eqb_refl.
Qed.

Lemma strip_prefix_Some (p s r : string) :
  strip_prefix p s = Some r -> s = p +:+ r.
Proof.
  revert s. induction p as [|a p IH]; intros s; cbn.
  - by intros [= ->].
  - destruct s as [|b s]; [discriminate |].
    destruct (Ascii.eqb_spec a b) as [-> | Hne]; [|discriminate].
    intros H. rewrite append_cons. f_equal. by apply IH.
Qed.

Lemma strip_prefix_extend (p u u' x : string) :
  strip_prefix p u = Some u' -> strip_prefix p (u +:+ x) = Some (u' +:+ x).
Proof.
  intros H. apply strip_prefix_Some in H as ->.
  rewrite append_assoc. apply strip_prefix_app.
Qed.

(** A prefix that has no [c] ends before the first [c] of the text. *)
Lemma strip_prefix_before (p u y r : string) (c : ascii) :
  mem_char c p = false ->
  strip_prefix p (u +:+ String c y) = Some r ->
  exists u', strip_prefix p u = Some u'.
Proof.
  revert u. induction p as [|a p IH]; intros u Hc; cbn; [eauto |].
  cbn in Hc. apply orb_false_iff in Hc as [Hca Hcp].
  destruct u as [|b u].
  - rewrite append_nil_l. rewrite Ascii.eqb_sym, Hca. discriminate.
  - rewrite append_cons. destruct (Ascii.eqb a b); [|discriminate].
    by apply IH.
Qed.

Lemma split_first_unfold (p s : string) :
  split_first p s =
  match strip_prefix p s with
  | Some r => Some ("", r)
  | None =>
      match s with
      | "" => None
      | String a s' =>
          match split_first p s' with
          | Some (b, r) => Some (String a b, r)
          | None => None
          end
      end
  end.
Proof. destruct s; reflexivity. Qed.

Lemma split_first_Some (p s b r : string) :
  split_first p s = Some (b, r) -> s = b +:+ p +:+ r.
Proof.
  revert b. induction s as [|a s IH]; intros b; rewrite split_first_unfold.
  - destruct (strip_prefix p "") eqn:Hp; [|discriminate].
    intros [= <- <-]. by apply strip_prefix_Some in Hp.
  - destruct (strip_prefix p (String a s)) eqn:Hp.
    + intros [= <- <-]. by apply strip_prefix_Some in Hp.
    + destruct (split_first p s) as [[b' r']|] eqn:Hs; [|discriminate].
      intros [= <- <-]. rewrite append_cons. f_equal. by apply IH.
Qed.

Lemma split_first_here (p r : string) :
  split_first p (p +:+ r) = Some ("", r).
Proof. by rewrite split_first_unfold, strip_prefix_app. Qed.

Lemma split_first_char (p y : string) (c : ascii) :
  p <> "" -> mem_char c p = false ->
  split_first p (String c y) = resume "" c (split_first p y).
Proof.
  intros Hp Hc. rewrite split_first_unfold.
  destruct (strip_prefix p (String c y)) as [r|] eqn:Hs.
  - destruct p as [|a p]; [done |]. cbn in Hs, Hc.
    apply orb_false_iff in Hc as [Hca _].
    rewrite Ascii.eqb_sym, Hca in Hs. discriminate.
  - unfold resume. by destruct (split_first p y) as [[b r]|].
Qed.

Lemma resume_cons (a : ascii) (u : string) (c : ascii)
    (found : option (string * string)) :
  match resume u c found with
  | Some (b, r) => Some (String a b, r)
  | None => None
  end = resume (String a u) c found.
Proof. by destruct found as [[b r]|]. Qed.

(** The pattern is absent from [u]. *)
Lemma split_first_absent (p u y : string) (c : ascii) :
  p <> "" -> mem_char c p = false ->
  split_first p u = None ->
  split_first p (u +:+ String c y) = resume u c (split_first p y).
Proof.
  intros Hp Hc. induction u as [|a u IH]; intros Hu.
  - rewrite append_nil_l. by apply split_first_char.
  - rewrite split_first_unfold in Hu.
    destruct (strip_prefix p (String a u)) eqn:Hs; [discriminate |].
    destruct (split_first p u) as [[b r]|] eqn:Hu'; [discriminate |].
    rewrite append_cons, split_first_unfold, <- append_cons.
    destruct (strip_prefix p (String a u +:+ String c y)) as [r|] eqn:Hs'.
    + apply strip_prefix_before in Hs' as [u' Hu'']; [|done]. congruence.
    + rewrite IH by done. apply resume_cons.
Qed.

(** The pattern occurs first right after [u]. *)
Lemma split_first_moved (p u r y : string) (c : ascii) :
  p <> "" -> mem_char c p = false ->
  split_first p (u +:+ p +:+ r) = Some (u, r) ->
  split_first p (u +:+ String c y) = resume u c (split_first p y).
Proof.
  intros Hp Hc. induction u as [|a u IH]; intros Hu.
  - rewrite append_nil_l. by apply split_first_char.
  - rewrite append_cons, split_first_unfold, <- append_cons in Hu.
    destruct (strip_prefix p (String a u +:+ p +:+ r)) eqn:Hs;
      [discriminate |].
    destruct (split_first p (u +:+ p +:+ r)) as [[b r']|] eqn:Hu';
      [|discriminate].
    injection Hu as -> ->.
    rewrite append_cons, split_first_unfold, <- append_cons.
    destruct (strip_prefix p (String a u +:+ String c y)) as [r'|] eqn:Hs'.
    + apply strip_prefix_before in Hs' as [u' Hu'']; [|done].
      by rewrite (strip_prefix_extend _ _ _ _ Hu'') in Hs.
    + rewrite IH by done. apply resume_cons.
Qed.

(** A header without the first character of the pattern is skipped. *)
Lemma split_first_header (a : ascii) (p h x : string) :
  mem_char a h = false ->
  split_first (String a p) (h +:+ x) =
  match split_first (String a p) x with
  | Some (b, r) => Some (h +:+ b, r)
  | None => None
  end.
Proof.
  induction h as [|b h IH]; intros Hh.
  - rewrite append_nil_l. by destruct (split_first _ x) as [[? ?]|].
  - cbn in Hh. apply orb_false_iff in Hh as [Hab Hh].
    rewrite append_cons, split_first_unfold. cbn [strip_prefix].
    rewrite Hab, (IH Hh).
    by destruct (split_first _ x) as [[? ?]|].
Qed.

Lemma get_substitution_plain (matched before after rep : string) :
  mem_char "$" rep = false ->
  get_substitution matched before after rep = rep.
Proof.
  induction rep as [|a rep IH]; [reflexivity |].
  intros H. cbn [mem_char] in H. apply orb_false_iff in H as [Ha Hrep].
  cbn [get_substitution]. rewrite Ascii.eqb_sym in Ha. rewrite Ha.
  f_equal. by apply IH.
Qed.

Lemma strip_prefix_short (p s r x : string) :
  strip_prefix p (s +:+ r) = Some x ->
  (String.length p <= String.length s)%nat ->
  exists y, strip_prefix p s = Some y.
Proof.
  revert s. induction p as [|a p IH]; intros s; cbn [strip_prefix]; [eauto |].
  destruct s as [|b s]; [cbn; lia |].
  rewrite append_cons. destruct (Ascii.eqb a b); [|discriminate].
  intros Hs Hlen. apply (IH s Hs). cbn in Hlen. lia.
Qed.

(** The first occurrence of a pattern right after [u] stays the first
    one whatever follows it. *)
Lemma split_first_at (p u r : string) :
  split_first p (u +:+ p) = Some (u, "") ->
  split_first p (u +:+ p +:+ r) = Some (u, r).
Proof.
  induction u as [|a u IH]; intros Hu.
  - rewrite append_nil_l. apply split_first_here.
  - rewrite append_cons, split_first_unfold, <- append_cons in Hu.
    destruct (strip_prefix p (String a u +:+ p)) eqn:Hs; [discriminate |].
    destruct (split_first p (u +:+ p)) as [[b r']|] eqn:Hu'; [|discriminate].
    injection Hu as -> ->.
    rewrite append_cons, split_first_unfold, <- append_cons.
    destruct (strip_prefix p (String a u +:+ p +:+ r)) as [x|] eqn:Hs'.
    + rewrite <- append_assoc in Hs'.
      apply strip_prefix_short in Hs' as [y Hy]; [congruence |].
      rewrite length_append. lia.
    + by rewrite (IH eq_refl).
Qed.

Lemma split_first_drop_header (p h u : string) :
  split_first p (h +:+ u +:+ p) = Some (h +:+ u, "") ->
  split_first p (u +:+ p) = Some (u, "").
Proof.
  induction h as [|a h IH]; intros Hh; [by rewrite !append_nil_l in Hh |].
  rewrite !append_cons, split_first_unfold in Hh.
  destruct (strip_prefix p (String a (h +:+ u +:+ p))); [discriminate |].
  destruct (split_first p (h +:+ u +:+ p)) as [[b r]|]; [|discriminate].
  injection Hh as -> ->. by apply IH.
Qed.

(** ** Markers and replacement *)


Lemma start_nonempty : start <> "".
Proof. discriminate. Qed.

Lemma stop_nonempty : stop <> "".
Proof. discriminate. Qed.

Lemma start_no_LF : mem_char LF start = false.
Proof. reflexivity. Qed.

Lemma stop_no_LF : mem_char LF stop = false.
Proof. reflexivity. Qed.

Lemma nl_append (s : string) : nl +:+ s = String LF s.
Proof. reflexivity. Qed.

Lemma newtoc_plain (t : string) :
  mem_char "$" t = false -> mem_char "$" (newtoc t) = false.
Proof.
  intros Ht. unfold newtoc. rewrite !mem_char_app, Ht. reflexivity.
Qed.

Lemma js_replace_string_found (p rep s b a : string) :
  split_first p s = Some (b, a) ->
  mem_char "$" rep = false ->
  js_replace_string p rep s = b +:+ rep +:+ a.
Proof.
  intros Hs Hrep. unfold js_replace_string.
  by rewrite Hs, get_substitution_plain.
Qed.

Lemma js_replace_string_absent (p rep s : string) :
  split_first p s = None -> js_replace_string p rep s = s.
Proof. intros Hs. unfold js_replace_string. by rewrite Hs. Qed.

Lemma remove_region_no_start (c : string) :
  split_first start c = None -> remove_region c = c.
Proof. intros H. unfold remove_region, region_match. by rewrite H. Qed.

Lemma remove_region_no_match (c : string) :
  region_match c = None -> remove_region c = c.
Proof. intros H. unfold remove_region. by rewrite H. Qed.

Local Opaque start stop.

(** The region of a text in which a generated block stands where the
    start marker was. *)
Lemma region_match_generated (pre post t : string) :
  split_first start (pre +:+ start +:+ post) = Some (pre, post) ->
  split_first stop t = None ->
  region_match (pre +:+ newtoc t +:+ post)
  = Some (pre +:+ nl +:+ nl, nl +:+ post).
Proof.
  intros Hpre Ht. unfold region_match, newtoc.
  rewrite !append_assoc, !nl_append.
  rewrite (split_first_moved start pre post _ LF
             start_nonempty start_no_LF Hpre).
  rewrite (split_first_char start _ LF start_nonempty start_no_LF).
  rewrite split_first_here. cbn [resume].
  rewrite (split_first_char stop _ LF stop_nonempty stop_no_LF).
  rewrite (split_first_absent stop t _ LF stop_nonempty stop_no_LF Ht).
  rewrite split_first_here. reflexivity.
Qed.

Lemma remove_region_generated (pre post t : string) :
  split_first start (pre +:+ start +:+ post) = Some (pre, post) ->
  split_first stop t = None ->
  remove_region (pre +:+ newtoc t +:+ post)
  = pre +:+ nl +:+ nl +:+ start +:+ nl +:+ post.
Proof.
  intros Hpre Ht. unfold remove_region.
  rewrite (region_match_generated _ _ _ Hpre Ht).
  by rewrite !append_assoc.
Qed.

(** The first start marker of the text that the second pass searches. *)
Lemma split_first_padded (pre post : string) :
  split_first start (pre +:+ start +:+ post) = Some (pre, post) ->
  split_first start (pre +:+ nl +:+ nl +:+ start +:+ nl +:+ post)
  = Some (pre +:+ nl +:+ nl, nl +:+ post).
Proof.
  intros Hpre. rewrite !nl_append.
  rewrite (split_first_moved start pre post _ LF
             start_nonempty start_no_LF Hpre).
  rewrite (split_first_char start _ LF start_nonempty start_no_LF).
  rewrite split_first_here. reflexivity.
Qed.


(** The first start marker of a text in which the block stands right
    after [u], when [u] has no start marker of its own. *)
Lemma split_first_block (u r t : string) :
  split_first start (u +:+ start) = Some (u, "") ->
  split_first start (u +:+ newtoc t +:+ r)
  = Some (u +:+ nl +:+ nl,
          nl +:+ nl +:+ t +:+ nl +:+ stop +:+ nl +:+ r).
Proof.
  intros Hu. pose proof (split_first_at _ _ "" Hu) as Hu'.
  unfold newtoc. rewrite !append_assoc, !nl_append.
  rewrite (split_first_moved start u "" _ LF
             start_nonempty start_no_LF Hu').
  rewrite (split_first_char start _ LF start_nonempty start_no_LF).
  rewrite split_first_here. reflexivity.
Qed.

Lemma split_first_pad (u : string) :
  split_first start (u +:+ start) = Some (u, "") ->
  split_first start ((u +:+ nl +:+ nl) +:+ start)
  = Some (u +:+ nl +:+ nl, "").
Proof.
  intros Hu. pose proof (split_first_at _ _ "" Hu) as Hu'.
  rewrite !append_assoc, !nl_append.
  rewrite (split_first_moved start u "" _ LF
             start_nonempty start_no_LF Hu').
  rewrite (split_first_char start _ LF start_nonempty start_no_LF).
  replace start with (start +:+ "") at 2 by apply append_nil_r.
  rewrite split_first_here. reflexivity.
Qed.

Section InsertFacts.
Variable L : Libs.

Lemma insert_eq (str : string) (o : opts) (t : string) :
  toc L (remove_region (matter L str).2) o = Normal t ->
  insert L str o
  = Normal (js_replace_string start (newtoc t)
              (matter_stringify L (remove_region (matter L str).2)
                                (matter L str).1)).
Proof. intros Ht. unfold insert. by rewrite Ht. Qed.

End InsertFacts.

(** ** Insertion *)

Lemma region_match_no_start (c : string) :
  split_first start c = None -> region_match c = None.
Proof. intros H. unfold region_match. by rewrite H. Qed.

(** C7 (as amended): when the body has no marker pair, and so whenever
    it has no start marker, the region-replace step leaves the body
    unchanged and, TOC generation completing, [insert] raises no error:
    it returns the re-serialized document as it is when that text has no
    start marker, and otherwise substitutes the replacement block at the
    first start marker of the re-serialized text, front matter
    included. *)
Theorem insert_without_region (L : Libs) (o : opts) (str t : string) :
  region_match (matter L str).2 = None ->
  toc L (matter L str).2 o = Normal t ->
  remove_region (matter L str).2 = (matter L str).2 /\
  (split_first start
     (matter_stringify L (matter L str).2 (matter L str).1) = None ->
   insert L str o
   = Normal (matter_stringify L (matter L str).2 (matter L str).1)) /\
  (forall b a,
     split_first start
       (matter_stringify L (matter L str).2 (matter L str).1)
     = Some (b, a) ->
     mem_char "$" t = false ->
     insert L str o = Normal (b +:+ newtoc t +:+ a)).
Proof.
  intros Hno Ht.
  pose proof (remove_region_no_match _ Hno) as Hc.
  split; [exact Hc |].
  assert (Hi := insert_eq L str o t). rewrite Hc in Hi.
  specialize (Hi Ht). split.
  - intros Hs. rewrite Hi. by rewrite js_replace_string_absent.
  - intros b a Hs Hd. rewrite Hi.
    by rewrite (js_replace_string_found _ _ _ _ _ Hs (newtoc_plain _ Hd)).
Qed.

Lemma insert_without_region_witness :
  region_match (matter StandIn.libs example_doc).2 = None /\
  toc StandIn.libs (matter StandIn.libs example_doc).2 default_opts
  = Normal ("* [A](#a)" +:+ nl +:+ "  * [B](#b)" +:+ nl +:+ "* [C](#c)"
            +:+ nl) /\
  insert StandIn.libs example_doc default_opts = Normal example_doc.
Proof.
  assert (Hno : region_match (matter StandIn.libs example_doc).2 = None)
    by (vm_compute; reflexivity).
  assert (Ht : toc StandIn.libs (matter StandIn.libs example_doc).2
                 default_opts
               = Normal ("* [A](#a)" +:+ nl +:+ "  * [B](#b)" +:+ nl
                         +:+ "* [C](#c)" +:+ nl))
    by (vm_compute; reflexivity).
  split; [exact Hno |]. split; [exact Ht |].
  apply (proj1 (proj2 (insert_without_region StandIn.libs default_opts
                         example_doc _ Hno Ht))).
  vm_compute; reflexivity.
Defined.

(** C7 (as stated) fails: the body of this document has no start marker,
    yet [insert] does not return the document as re-serialized: the
    start marker that the front matter mentions is replaced by the
    block. *)
Lemma insert_changes_front_matter :
  split_first start (matter StandIn.libs front_matter_doc).2 = None /\
  matter_stringify StandIn.libs (matter StandIn.libs front_matter_doc).2
                   (matter StandIn.libs front_matter_doc).1
  = front_matter_doc /\
  insert StandIn.libs front_matter_doc default_opts
  = Normal front_matter_doc_out /\
  front_matter_doc_out <> front_matter_doc.
Proof.
  split; [vm_compute; reflexivity |].
  split; [vm_compute; reflexivity |].
  split; [vm_compute; reflexivity |].
  intros H. apply (f_equal String.length) in H. vm_compute in H.
  discriminate.
Qed.

(** C3 (as amended): on a document whose body has a start marker, a
    second [insert] deletes the block that the first call generated and
    writes the same block again, yet its output is not byte-identical to
    the first output: two more line feeds stand before the start marker
    and one more after the stop marker. The conditions: the TOC text has
    no [$] and no stop marker; the codec re-serializes a body as a header
    [h], the body and a trailer, no start marker standing before the one
    of the body; it parses the first output back to the same front matter
    and to a body that begins with the same text before the block; and
    the headings, hence the TOC text, are unchanged. *)
Theorem insert_twice (L : Libs) (o : opts) (str : string) (d : fm_data L)
    (c pre post post' t h e e' : string) :
  matter L str = (d, c) ->
  remove_region c = pre +:+ start +:+ post ->
  toc L (pre +:+ start +:+ post) o = Normal t ->
  mem_char "$" t = false ->
  split_first stop t = None ->
  matter_stringify L (pre +:+ start +:+ post) d
  = h +:+ pre +:+ start +:+ post +:+ e ->
  split_first start (h +:+ pre +:+ start) = Some (h +:+ pre, "") ->
  matter L (h +:+ pre +:+ newtoc t +:+ post +:+ e)
  = (d, pre +:+ newtoc t +:+ post') ->
  toc L (pre +:+ nl +:+ nl +:+ start +:+ nl +:+ post') o = Normal t ->
  matter_stringify L (pre +:+ nl +:+ nl +:+ start +:+ nl +:+ post') d
  = h +:+ pre +:+ nl +:+ nl +:+ start +:+ nl +:+ post' +:+ e' ->
  insert L str o = Normal (h +:+ pre +:+ newtoc t +:+ post +:+ e) /\
  insert L (h +:+ pre +:+ newtoc t +:+ post +:+ e) o
  = Normal (h +:+ pre +:+ nl +:+ nl +:+ newtoc t +:+ nl +:+ post' +:+ e') /\
  h +:+ pre +:+ nl +:+ nl +:+ newtoc t +:+ nl +:+ post' +:+ e'
  <> h +:+ pre +:+ newtoc t +:+ post +:+ e.
Proof.
  intros Hm Hc Ht Hd Hstop Hser1 Hfirst Hrt Ht2 Hser2.
  pose proof (newtoc_plain _ Hd) as Hplain.
  rewrite <- append_assoc in Hfirst.
  pose proof (split_first_drop_header _ _ _
                ltac:(rewrite <- append_assoc; exact Hfirst)) as Hpre.
  split; [|split].
  - pose proof (insert_eq L str o t) as Hi.
    rewrite Hm in Hi. cbn [fst snd] in Hi. rewrite Hc in Hi.
    rewrite (Hi Ht), Hser1.
    rewrite (js_replace_string_found start (newtoc t) _ (h +:+ pre)
               (post +:+ e)).
    + by rewrite append_assoc.
    + rewrite <- (append_assoc h pre). by apply split_first_at.
    + exact Hplain.
  - pose proof (insert_eq L (h +:+ pre +:+ newtoc t +:+ post +:+ e) o t)
      as Hi.
    rewrite Hrt in Hi. cbn [fst snd] in Hi.
    rewrite (remove_region_generated _ _ _
               (split_first_at _ _ post' Hpre) Hstop) in Hi.
    rewrite (Hi Ht2), Hser2.
    rewrite (js_replace_string_found start (newtoc t) _
               (h +:+ pre +:+ nl +:+ nl) (nl +:+ post' +:+ e')).
    + by rewrite !append_assoc.
    + pose proof (split_first_at _ _ (nl +:+ post' +:+ e')
                    (split_first_pad _ Hfirst)) as Hs.
      by rewrite !append_assoc in Hs.
    + exact Hplain.
  - intros Heq.
    pose proof (split_first_block _ (post +:+ e) t Hfirst) as H1.
    pose proof (split_first_block _ (nl +:+ post' +:+ e') t
                  (split_first_pad _ Hfirst)) as H2.
    rewrite !append_assoc in H1. rewrite !append_assoc in H2.
    rewrite Heq, H1 in H2.
    injection H2 as H2 _. apply (f_equal String.length) in H2.
    rewrite !length_append in H2. cbn in H2. lia.
Qed.

Lemma insert_twice_witness :
  (insert StandIn.libs marker_doc default_opts = Normal marker_doc_once /\
   insert StandIn.libs marker_doc_once default_opts
   = Normal marker_doc_twice) /\
  (insert StandIn.libs_lf marker_doc default_opts
   = Normal (marker_doc_once +:+ nl) /\
   insert StandIn.libs_lf (marker_doc_once +:+ nl) default_opts
   = Normal (marker_doc_twice +:+ nl +:+ nl)).
Proof.
  split.
  - destruct (insert_twice StandIn.libs default_opts marker_doc None
                marker_doc ("# T" +:+ nl +:+ nl)
                (nl +:+ nl +:+ "## A" +:+ nl) (nl +:+ nl +:+ "## A" +:+ nl)
                ("* [A](#a)" +:+ nl) "" "" "")
      as (H1 & H2 & _);
      try (vm_compute; reflexivity).
    split; [|exact H2]. etransitivity; [exact H1 |].
    vm_compute; reflexivity.
  - destruct (insert_twice StandIn.libs_lf default_opts marker_doc None
                marker_doc ("# T" +:+ nl +:+ nl)
                (nl +:+ nl +:+ "## A" +:+ nl)
                (nl +:+ nl +:+ "## A" +:+ nl +:+ nl)
                ("* [A](#a)" +:+ nl) "" nl nl)
      as (H1 & H2 & _);
      try (vm_compute; reflexivity).
    split.
    + etransitivity; [exact H1 |]. vm_compute; reflexivity.
    + etransitivity; [|etransitivity; [exact H2 |]];
        vm_compute; reflexivity.
Defined.

(** C3 (as stated) fails: the headings of [marker_doc] do not change,
    the same TOC text is generated both times, and the output of a
    second [insert] differs from the first. *)
Lemma insert_not_idempotent :
  insert StandIn.libs marker_doc default_opts = Normal marker_doc_once /\
  insert StandIn.libs marker_doc_once default_opts
  = Normal marker_doc_twice /\
  toc StandIn.libs (remove_region marker_doc_once) default_opts
  = toc StandIn.libs (remove_region marker_doc) default_opts /\
  marker_doc_twice <> marker_doc_once.
Proof.
  split; [vm_compute; reflexivity |].
  split; [vm_compute; reflexivity |].
  split; [vm_compute; reflexivity |].
  intros H. apply (f_equal String.length) in H. vm_compute in H.
  discriminate.
Qed.

(** ** Completion *)

Lemma render_defaultTemplate (rec : gmap string jsval) (d b hd u : string) :
  rec !! "depth" = Some (JStr d) ->
  rec !! "bullet" = Some (JStr b) ->
  rec !! "heading" = Some (JStr hd) ->
  rec !! "url" = Some (JStr u) ->
  render defaultTemplate rec
  = Normal (d +:+ b +:+ "[" +:+ hd +:+ "](#" +:+ u +:+ ")" +:+ nl).
Proof.
  intros Hd Hb Hh Hu. unfold defaultTemplate. cbn [render].
  rewrite Hd, Hb, Hh, Hu. reflexivity.
Qed.

Lemma mapM_total {A B : Type} (f : A -> completion B) (l : list A) :
  (forall x, x ∈ l -> exists y, f x = Normal y) ->
  exists k, mapM f l = Normal k.
Proof.
  induction l as [|x l IH]; intros Hf.
  - exists []. apply mapM_nil_c.
  - destruct (Hf x) as [y Hy]; [apply elem_of_cons; by left |].
    destruct IH as [k Hk].
    { intros x' Hx'. apply Hf, elem_of_cons. by right. }
    exists (y :: k). by rewrite mapM_cons_c, Hy, Hk.
Qed.

Lemma build_line_total (o : opts) (h : heading) :
  opts_template o = defaultTemplate ->
  1 <= h_depth h <= 2 ^ 31 ->
  exists dl, build_line o h = Normal dl.
Proof.
  intros Ht Hd. unfold build_line.
  destruct (build_record o h) as [rec|e] eqn:Hb.
  - pose proof (build_record_fields _ _ _ Hb) as (_ & H1 & H2 & H3 & H4).
    cbn. rewrite Ht, (render_defaultTemplate _ _ _ _ _ H1 H2 H3 H4).
    cbn. eauto.
  - unfold build_record in Hb.
    rewrite new_Array_join_space_Normal in Hb by lia. discriminate.
Qed.

(** With the default template, generation completes on every token
    stream whose heading depths are in the range of array lengths. *)
Lemma generate_tokens_completes (L : Libs) (o : opts) (tokens : list token) :
  (forall d txt, Heading d txt ∈ tokens -> 1 <= d <= 2 ^ 31) ->
  opts_template o = defaultTemplate ->
  exists r, generate_tokens L tokens o = Normal r.
Proof.
  intros Hrange Ht. rewrite generate_tokens_eq.
  destruct (mapM_total (build_line o)
              (List.filter (passes_depth o)
                 (filtered L o (shift_first o tokens)))) as [rl Hrl].
  - intros h Hh. apply list_elem_of_In, filter_In in Hh as [Hh _].
    apply list_elem_of_In in Hh.
    destruct (filtered_origin L o _ _ Hh) as (d & txt & Hin & Hd & Hne).
    apply shift_first_subseteq in Hin. pose proof (Hrange d txt Hin).
    apply build_line_total; [done |]. rewrite Hd.
    destruct (any_depth_1 _); [lia |]. specialize (Hne eq_refl). lia.
  - rewrite Hrl. cbn. eauto.
Qed.

(** * Further properties of the pipeline *)

(** ** The listing in closed form *)

Lemma build_record_Normal (o : opts) (h : heading) :
  1 <= h_depth h <= 2 ^ 31 -> build_record o h = Normal (record_for o h).
Proof.
  intros Hd. unfold build_record, record_for.
  rewrite new_Array_join_space_Normal by lia. cbn.
  by replace ((h_depth h - 1) * 2 + 1 - 1) with ((h_depth h - 1) * 2) by lia.
Qed.

Lemma build_record_inv (o : opts) (h : heading) (rec : gmap string jsval) :
  build_record o h = Normal rec -> rec = record_for o h.
Proof.
  unfold build_record, record_for.
  destruct (new_Array_join_space _) as [indent|e] eqn:Hi; cbn; [|discriminate].
  intros [= <-]. apply new_Array_join_space_inv in Hi as [_ ->].
  by replace ((h_depth h - 1) * 2 + 1 - 1) with ((h_depth h - 1) * 2) by lia.
Qed.

Lemma build_line_default (o : opts) (h : heading) :
  opts_template o = defaultTemplate ->
  1 <= h_depth h <= 2 ^ 31 ->
  build_line o h = Normal (record_for o h, default_line o h).
Proof.
  intros Ht Hd. unfold build_line. rewrite (build_record_Normal _ _ Hd). cbn.
  pose proof (build_record_fields _ _ _ (build_record_Normal o h Hd))
    as (_ & H1 & H2 & H3 & H4).
  by rewrite Ht, (render_defaultTemplate _ _ _ _ _ H1 H2 H3 H4).
Qed.

Lemma mapM_ext_Normal {A B : Type} (f : A -> completion B) (g : A -> B)
    (l : list A) :
  (forall x, x ∈ l -> f x = Normal (g x)) -> mapM f l = Normal (map g l).
Proof.
  induction l as [|x l IH]; intros Hf; [apply mapM_nil_c |].
  rewrite mapM_cons_c, Hf, IH; [done | | apply elem_of_cons; by left].
  intros x' Hx'. apply Hf, elem_of_cons. by right.
Qed.

Lemma listed_depth_range (L : Libs) (o : opts) (tokens : list token)
    (hi : Z) (h : heading) :
  (forall d txt, Heading d txt ∈ tokens -> 1 <= d <= hi) ->
  h ∈ listed L o tokens -> 1 <= h_depth h <= hi.
Proof.
  intros Hrange Hh. unfold listed in Hh.
  apply list_elem_of_In, filter_In in Hh as [Hh _].
  apply list_elem_of_In in Hh.
  destruct (filtered_origin L o _ _ Hh) as (d & txt & Hin & Hd & Hne).
  apply shift_first_subseteq in Hin. pose proof (Hrange d txt Hin).
  rewrite Hd. destruct (any_depth_1 _); [lia |].
  specialize (Hne eq_refl). lia.
Qed.

(** X1: with the default template, on a token stream whose heading
    depths lie between 1 and 2^31, generation completes with one record and one
    line per listed heading, in document order: the line is the indent,
    the bullet, and the link [[heading](#url)] followed by a line feed. *)
Theorem generate_default_closed_form (L : Libs) (o : opts)
    (tokens : list token) :
  (forall d txt, Heading d txt ∈ tokens -> 1 <= d <= 2 ^ 31) ->
  opts_template o = defaultTemplate ->
  generate_tokens L tokens o
  = Normal {| res_data := map (record_for o) (listed L o tokens);
              res_toc := final_strip L o
                           (concat_strings
                              (map (default_line o) (listed L o tokens))) |}.
Proof.
  intros Hrange Ht. rewrite generate_tokens_eq. fold (listed L o tokens).
  rewrite (mapM_ext_Normal _ (fun h => (record_for o h, default_line o h))).
  - cbn. f_equal. f_equal.
    + by rewrite <- list_fmap_compose.
    + by rewrite <- list_fmap_compose.
  - intros h Hh. apply build_line_default; [done |].
    by apply (listed_depth_range L o tokens _ h Hrange).
Qed.

Lemma example_tokens_range :
  forall d txt, Heading d txt ∈ example_tokens -> 1 <= d <= 2 ^ 31.
Proof.
  intros d txt Hin. unfold example_tokens in Hin.
  repeat (apply elem_of_cons in Hin as [[= -> ->] | Hin]; [lia |]).
  by apply elem_of_nil in Hin.
Defined.

Lemma generate_default_closed_form_witness :
  (forall d txt, Heading d txt ∈ example_tokens -> 1 <= d <= 2 ^ 31) /\
  opts_template default_opts = defaultTemplate /\
  generate_tokens StandIn.libs example_tokens default_opts
  = Normal {| res_data := map (record_for default_opts)
                              (listed StandIn.libs default_opts
                                      example_tokens);
              res_toc := final_strip StandIn.libs default_opts
                           (concat_strings
                              (map (default_line default_opts)
                                   (listed StandIn.libs default_opts
                                           example_tokens))) |}.
Proof.
  split; [exact example_tokens_range |]. split; [reflexivity |].
  exact (generate_default_closed_form StandIn.libs default_opts
           example_tokens example_tokens_range eq_refl).
Defined.

(** ** Caller data in the records *)

Lemma record_for_own (o : opts) (h : heading) (k : string) :
  k ∈ own_fields ->
  record_for o h !! k = record_for (set_data None o) h !! k.
Proof.
  intros Hk. unfold own_fields in Hk.
  change (pick_bullet (set_data None o) h) with (pick_bullet o h).
  repeat (apply elem_of_cons in Hk as [-> | Hk];
          [unfold record_for; by simplify_map_eq |]).
  by apply elem_of_nil in Hk.
Qed.

Lemma record_for_other (o : opts) (h : heading) (k : string) :
  k ∉ own_fields -> record_for o h !! k = default ∅ (data o) !! k.
Proof.
  intros Hk. unfold record_for.
  rewrite !lookup_insert_ne; [done | | | |];
    intros <-; apply Hk; unfold own_fields; set_solver.
Qed.

(** X2: the properties of [options.data] are merged into every record,
    and never shadow the four properties that [generate] sets: in each
    record of [data], [depth], [bullet], [heading] and [url] are what
    they are without [options.data], and every other property is the one
    of [options.data]. *)
Theorem caller_data_merged (L : Libs) (o : opts) (tokens : list token)
    (r : toc_result) (rec : gmap string jsval) :
  generate_tokens L tokens o = Normal r ->
  rec ∈ res_data r ->
  exists h,
    h ∈ listed L o tokens /\
    (forall k, k ∈ own_fields ->
               rec !! k = record_for (set_data None o) h !! k) /\
    (forall k, k ∉ own_fields -> rec !! k = default ∅ (data o) !! k).
Proof.
  intros Hr Hrec.
  destruct (generate_tokens_record L _ _ _ _ Hr Hrec) as (h & Hh & Hp & Hb).
  apply build_record_inv in Hb as ->. exists h. split.
  - unfold listed. apply list_elem_of_In, filter_In.
    by rewrite <- list_elem_of_In.
  - split; [apply record_for_own | apply record_for_other].
Qed.

Lemma caller_data_merged_witness :
  let o := set_data (Some {[ "heading" := JStr "mine"; "lang" := JStr "en" ]})
                    default_opts in
  exists r,
    generate_tokens StandIn.libs example_tokens o = Normal r /\
    forall rec, rec ∈ res_data r ->
      rec !! "lang" = Some (JStr "en") /\ rec !! "heading" <> Some (JStr "mine").
Proof.
  intros o.
  destruct (generate_tokens StandIn.libs example_tokens o) as [r|e] eqn:Hr;
    [|vm_compute in Hr; discriminate].
  exists r. split; [reflexivity |]. intros rec Hrec.
  destruct (caller_data_merged StandIn.libs o example_tokens r rec Hr Hrec)
    as (h & Hh & Hown & Hother).
  split.
  - rewrite Hother; [reflexivity |].
    unfold own_fields. intros Hk.
    repeat (apply elem_of_cons in Hk as [Hk | Hk]; [discriminate |]).
    by apply elem_of_nil in Hk.
  - rewrite (Hown "heading");
      [|unfold own_fields; do 2 (apply elem_of_cons; right);
        apply elem_of_cons; by left].
    vm_compute in Hh.
    repeat (apply elem_of_cons in Hh as [Heq | Hh];
            [rewrite Heq; vm_compute; discriminate |]).
    by apply elem_of_nil in Hh.
Defined.

(** ** Bullets *)



(** ** Documents without a listed heading *)

Lemma filtered_no_heading (L : Libs) (o : opts) (tokens : list token) :
  (forall d txt, Heading d txt ∉ tokens) -> filtered L o tokens = [].
Proof.
  intros Hno. destruct (filtered L o tokens) as [|h hs] eqn:Hf; [done |].
  assert (Hh : h ∈ filtered L o tokens)
    by (rewrite Hf; apply elem_of_cons; by left).
  destruct (filtered_origin L o _ _ Hh) as (d & txt & Hin & _).
  by apply Hno in Hin.
Qed.

(** X4: when no heading token is left after the first-token exclusion
    (an empty document, a document that is only its title, a document
    without headings), generation completes whatever the options and the
    template are, with no record and the empty TOC text (passed through
    the strip transform when [options.strip] is set). *)
Theorem no_heading_empty_toc (L : Libs) (o : opts) (tokens : list token) :
  (forall d txt, Heading d txt ∉ shift_first o tokens) ->
  generate_tokens L tokens o
  = Normal {| res_data := []; res_toc := final_strip L o "" |}.
Proof.
  intros Hno. rewrite generate_tokens_eq.
  by rewrite (filtered_no_heading L o _ Hno).
Qed.

Lemma no_heading_empty_toc_witness :
  (forall d txt,
     Heading d txt ∉ shift_first default_opts [Heading 1 "Title"]) /\
  generate_tokens StandIn.libs [Heading 1 "Title"] default_opts
  = Normal {| res_data := []; res_toc := "" |}.
Proof.
  assert (Hno : forall d txt,
            Heading d txt ∉ shift_first default_opts [Heading 1 "Title"]).
  { intros d txt Hin. cbn in Hin. by apply elem_of_nil in Hin. }
  split; [exact Hno |].
  exact (no_heading_empty_toc StandIn.libs default_opts _ Hno).
Defined.

(** ** Raising [maxDepth] *)

Lemma filter_impl_sublist {A : Type} (P Q : A -> bool) (l : list A) :
  (forall x, P x = true -> Q x = true) ->
  List.filter P l `sublist_of` List.filter Q l.
Proof.
  intros HPQ. induction l as [|x l IH]; cbn; [constructor |].
  destruct (P x) eqn:HP.
  - rewrite (HPQ x HP). by constructor.
  - destruct (Q x); [by constructor | exact IH].
Qed.

Lemma mapM_sublist {A B : Type} (f : A -> completion B)
    (l1 l2 : list A) (k1 k2 : list B) :
  l1 `sublist_of` l2 ->
  mapM f l1 = Normal k1 -> mapM f l2 = Normal k2 ->
  k1 `sublist_of` k2.
Proof.
  intros Hsub. revert k1 k2.
  induction Hsub as [|x l1 l2 Hsub IH|x l1 l2 Hsub IH]; intros k1 k2.
  - rewrite mapM_nil_c. intros [= <-] _. apply sublist_nil_l.
  - rewrite !mapM_cons_c. destruct (f x) as [y|e]; [|discriminate].
    destruct (mapM f l1) as [k1'|e]; [|discriminate].
    destruct (mapM f l2) as [k2'|e]; [|discriminate].
    intros [= <-] [= <-]. constructor. by apply IH.
  - rewrite mapM_cons_c. destruct (f x) as [y|e]; [|discriminate].
    destruct (mapM f l2) as [k2'|e]; [|discriminate].
    intros Hk1 [= <-]. constructor. by apply IH.
Qed.

(** X6: raising [maxDepth] only adds records: without a strip
    transform, the records listed for a cutoff [m] are, in the same
    order, among the records listed for any larger cutoff [m']. *)
Theorem maxDepth_monotone (L : Libs) (o : opts) (tokens : list token)
    (m m' : Z) (r r' : toc_result) :
  strip o = None ->
  m <= m' ->
  generate_tokens L tokens (set_maxDepth m o) = Normal r ->
  generate_tokens L tokens (set_maxDepth m' o) = Normal r' ->
  res_data r `sublist_of` res_data r'.
Proof.
  intros Hs Hm. rewrite !generate_tokens_eq.
  assert (Hf : forall n,
            filtered L (set_maxDepth n o) (shift_first (set_maxDepth n o) tokens)
            = filtered L o (shift_first o tokens)).
  { intros n. unfold filtered, shift_first. cbn [firsth1 set_maxDepth].
    generalize (any_depth_1 (if firsth1 o then tokens else tail tokens)).
    intros flag.
    induction (if firsth1 o then tokens else tail tokens)
      as [|[d txt|ty] l IH]; [reflexivity | |exact IH].
    cbn [omap list_omap]. rewrite IH.
    unfold filter_callback, heading_text, opts_slugify.
    cbn [strip omit slugify slugifyOptions set_maxDepth]. by rewrite Hs. }
  rewrite !Hf.
  change (build_line (set_maxDepth m o)) with (build_line o).
  change (build_line (set_maxDepth m' o)) with (build_line o).
  destruct (mapM (build_line o)
              (List.filter (passes_depth (set_maxDepth m o)) _))
    as [rl|e] eqn:Hrl; [|discriminate].
  destruct (mapM (build_line o)
              (List.filter (passes_depth (set_maxDepth m' o)) _))
    as [rl'|e] eqn:Hrl'; [|discriminate].
  cbn. intros [= <-] [= <-]. cbn.
  apply mapM_build_line_records in Hrl as [Hrl _].
  apply mapM_build_line_records in Hrl' as [Hrl' _].
  refine (mapM_sublist _ _ _ _ _ _ Hrl Hrl').
  apply filter_impl_sublist. intros h. unfold passes_depth.
  cbn [maxDepth set_maxDepth].
  destruct (Z.ltb_spec m (h_depth h)), (Z.ltb_spec m' (h_depth h));
    cbn; (done || lia).
Qed.

Lemma maxDepth_monotone_witness :
  exists r r',
    generate_tokens StandIn.libs example_tokens (set_maxDepth 1 default_opts)
    = Normal r /\
    generate_tokens StandIn.libs example_tokens (set_maxDepth 3 default_opts)
    = Normal r' /\
    res_data r `sublist_of` res_data r'.
Proof.
  destruct (generate_tokens StandIn.libs example_tokens
              (set_maxDepth 1 default_opts)) as [r|e] eqn:Hr;
    [|vm_compute in Hr; discriminate].
  destruct (generate_tokens StandIn.libs example_tokens
              (set_maxDepth 3 default_opts)) as [r'|e] eqn:Hr';
    [|vm_compute in Hr'; discriminate].
  exists r, r'. split; [reflexivity |]. split; [reflexivity |].
  assert (Hm : 1 <= 3) by lia.
  exact (maxDepth_monotone StandIn.libs default_opts example_tokens 1 3 r r'
           eq_refl Hm Hr Hr').
Defined.

(** ** The marked region *)




Local Transparent start stop.

Lemma stop_shape : stop = String "<" "!-- tocstop -->".
Proof. reflexivity. Qed.

Lemma markers_plain :
  mem_char "$" (nl +:+ nl +:+ start +:+ nl +:+ nl) = false /\
  mem_char "$" (nl +:+ stop +:+ nl) = false.
Proof. split; reflexivity. Qed.

Local Opaque start stop.

(** X8: markers that touch are not a region, since the expression asks
    for at least one character between them. When the stop marker
    follows the start marker at once and no other stop marker comes
    later, the region-replace step leaves the body as it is. When, in
    addition, the TOC text has no [$] and the body is re-serialized as a
    header, the body and a trailer with no start marker before the one of
    the body, the block is written in the place of that start marker, so
    that the old stop marker follows the new one. *)
Theorem insert_adjacent_markers (L : Libs) (o : opts) (str : string)
    (d : fm_data L) (pre post : string) :
  matter L str = (d, pre +:+ start +:+ stop +:+ post) ->
  split_first start (pre +:+ start) = Some (pre, "") ->
  split_first stop post = None ->
  region_match (pre +:+ start +:+ stop +:+ post) = None /\
  remove_region (pre +:+ start +:+ stop +:+ post)
  = pre +:+ start +:+ stop +:+ post /\
  forall t h e,
    toc L (pre +:+ start +:+ stop +:+ post) o = Normal t ->
    mem_char "$" t = false ->
    matter_stringify L (pre +:+ start +:+ stop +:+ post) d
    = h +:+ pre +:+ start +:+ stop +:+ post +:+ e ->
    split_first start (h +:+ pre +:+ start) = Some (h +:+ pre, "") ->
    insert L str o
    = Normal (h +:+ pre +:+ newtoc t +:+ stop +:+ post +:+ e).
Proof.
  intros Hm Hpre Hpost.
  assert (Hno : region_match (pre +:+ start +:+ stop +:+ post) = None).
  { unfold region_match. rewrite (split_first_at _ _ _ Hpre).
    rewrite stop_shape at 1. rewrite append_cons.
    rewrite stop_shape, split_first_header by reflexivity.
    rewrite <- stop_shape. by rewrite Hpost. }
  pose proof (remove_region_no_match _ Hno) as Hrem.
  split; [exact Hno |]. split; [exact Hrem |].
  intros t h e Ht Hd Hser Hfirst.
  pose proof (insert_eq L str o t) as Hi.
  rewrite Hm in Hi. cbn [fst snd] in Hi. rewrite Hrem in Hi.
  rewrite (Hi Ht), Hser.
  rewrite (js_replace_string_found start (newtoc t) _ (h +:+ pre)
             (stop +:+ post +:+ e)).
  - by rewrite append_assoc.
  - rewrite <- (append_assoc h pre). apply split_first_at.
    by rewrite append_assoc.
  - by apply newtoc_plain.
Qed.

Lemma insert_adjacent_markers_witness :
  region_match ("# T" +:+ nl +:+ start +:+ stop +:+ nl +:+ "## A" +:+ nl)
  = None /\
  insert StandIn.libs_lf
         ("# T" +:+ nl +:+ start +:+ stop +:+ nl +:+ "## A" +:+ nl)
         default_opts
  = Normal ("" +:+ ("# T" +:+ nl) +:+ newtoc ("* [A](#a)" +:+ nl)
            +:+ stop +:+ (nl +:+ "## A" +:+ nl) +:+ nl).
Proof.
  destruct (insert_adjacent_markers StandIn.libs_lf default_opts
              ("# T" +:+ nl +:+ start +:+ stop +:+ nl +:+ "## A" +:+ nl)
              None ("# T" +:+ nl) (nl +:+ "## A" +:+ nl))
    as (Hno & _ & Hins); try (vm_compute; reflexivity).
  split; [exact Hno |].
  apply Hins; vm_compute; reflexivity.
Defined.

(** ** Replacement patterns in the TOC text *)

Lemma get_substitution_app_plain (matched before after x z : string) :
  mem_char "$" x = false ->
  get_substitution matched before after (x +:+ z)
  = x +:+ get_substitution matched before after z.
Proof.
  induction x as [|a x IH]; intros Hx; [reflexivity |].
  cbn [mem_char] in Hx. apply orb_false_iff in Hx as [Ha Hx].
  rewrite !append_cons. cbn [get_substitution].
  rewrite Ascii.eqb_sym in Ha. rewrite Ha. f_equal. by apply IH.
Qed.

Lemma get_substitution_dollar (matched before after z : string) :
  get_substitution matched before after ("$$" +:+ z)
  = "$" +:+ get_substitution matched before after z /\
  get_substitution matched before after ("$&" +:+ z)
  = matched +:+ get_substitution matched before after z.
Proof. split; reflexivity. Qed.

Lemma newtoc_substitution (matched before after x y pat out : string) :
  mem_char "$" x = false -> mem_char "$" y = false ->
  get_substitution matched before after (pat +:+ y +:+ nl +:+ stop +:+ nl)
  = out +:+ y +:+ nl +:+ stop +:+ nl ->
  get_substitution matched before after (newtoc (x +:+ pat +:+ y))
  = newtoc (x +:+ out +:+ y).
Proof.
  intros Hx Hy Hpat. destruct markers_plain as [Hpre Hsuf].
  unfold newtoc.
  replace (nl +:+ nl +:+ start +:+ nl +:+ nl +:+ (x +:+ pat +:+ y)
           +:+ nl +:+ stop +:+ nl)
    with (((nl +:+ nl +:+ start +:+ nl +:+ nl) +:+ x)
          +:+ pat +:+ y +:+ nl +:+ stop +:+ nl)
    by (by rewrite !append_assoc).
  rewrite get_substitution_app_plain, Hpat.
  - by rewrite !append_assoc.
  - by rewrite mem_char_app, Hpre, Hx.
Qed.

(** X9: the TOC text is used as a replacement pattern: where a heading
    brings [$$] into the TOC text the block written into the document
    has a single [$], and where it brings [$&] the block has the start
    marker in its place. *)
Theorem toc_text_is_a_pattern (L : Libs) (o : opts) (str : string)
    (x y b a : string) :
  mem_char "$" x = false ->
  mem_char "$" y = false ->
  split_first start
    (matter_stringify L (remove_region (matter L str).2) (matter L str).1)
  = Some (b, a) ->
  (toc L (remove_region (matter L str).2) o = Normal (x +:+ "$$" +:+ y) ->
   insert L str o = Normal (b +:+ newtoc (x +:+ "$" +:+ y) +:+ a)) /\
  (toc L (remove_region (matter L str).2) o = Normal (x +:+ "$&" +:+ y) ->
   insert L str o = Normal (b +:+ newtoc (x +:+ start +:+ y) +:+ a)).
Proof.
  intros Hx Hy Hs. destruct markers_plain as [_ Hsuf].
  assert (Htail : forall m bb aa,
            get_substitution m bb aa (y +:+ nl +:+ stop +:+ nl)
            = y +:+ nl +:+ stop +:+ nl).
  { intros m bb aa. apply get_substitution_plain.
    by rewrite mem_char_app, Hy, Hsuf. }
  split; intros Ht; rewrite (insert_eq L str o _ Ht);
    unfold js_replace_string; rewrite Hs; do 3 f_equal.
  - apply newtoc_substitution; [done | done |].
    rewrite (proj1 (get_substitution_dollar _ _ _ _)). by rewrite Htail.
  - apply newtoc_substitution; [done | done |].
    rewrite (proj2 (get_substitution_dollar _ _ _ _)). by rewrite Htail.
Qed.

Lemma toc_text_is_a_pattern_witness :
  insert StandIn.libs
         ("# T" +:+ nl +:+ start +:+ nl +:+ "## A $$ B" +:+ nl) default_opts
  = Normal (("# T" +:+ nl)
            +:+ newtoc ("* [A " +:+ "$" +:+ " B](#a--b)" +:+ nl)
            +:+ (nl +:+ "## A $$ B" +:+ nl)).
Proof.
  apply (proj1 (toc_text_is_a_pattern StandIn.libs default_opts
                  ("# T" +:+ nl +:+ start +:+ nl +:+ "## A $$ B" +:+ nl)
                  "* [A " (" B](#a--b)" +:+ nl)
                  ("# T" +:+ nl) (nl +:+ "## A $$ B" +:+ nl)
                  eq_refl eq_refl ltac:(vm_compute; reflexivity)));
    vm_compute; reflexivity.
Defined.

(** ** [toc.add] *)

Section AddFacts.
Variable L : Libs.
Variable isDest : dest_arg -> bool.

Lemma add_Done_inv (w w1 : world) (fp : string) (dest : dest_arg)
    (options : option opts) :
  add L isDest w fp dest options = Done w1 ->
  exists content out p,
    files w !! fp = Some content /\
    insert L content (add_opts options) = Normal out /\
    (if isDest dest then DestPath fp else dest) = DestPath p /\
    w1 = {| files := <[p := out]> (files w);
            console := console w ++ [[" Success: "; p]] |}.
Proof.
  unfold add. destruct (files w !! fp) as [content|] eqn:Hc; [|discriminate].
  destruct (insert L content (add_opts options)) as [out|e] eqn:Hi;
    [|discriminate].
  destruct (if isDest dest then DestPath fp else dest) as [|p|o'] eqn:Hp;
    [discriminate | | discriminate].
  intros [= <-]. by exists content, out, p.
Qed.

End AddFacts.

(** X10: when the second argument is not taken as a destination, the
    source file is rewritten in place, no other file changes, and the
    outcome does not depend on what the second argument holds: an options
    object passed in its place is not applied, generation runs with the
    third argument alone. *)
Theorem add_in_place (L : Libs) (isDest : dest_arg -> bool) (w : world)
    (fp : string) (dest dest' : dest_arg) (options : option opts) :
  isDest dest = true ->
  isDest dest' = true ->
  add L isDest w fp dest options = add L isDest w fp dest' options /\
  (forall w1,
     add L isDest w fp dest options = Done w1 ->
     (exists content out,
        files w !! fp = Some content /\
        insert L content (add_opts options) = Normal out /\
        files w1 !! fp = Some out) /\
     forall p, p <> fp -> files w1 !! p = files w !! p).
Proof.
  intros Hd Hd'. split; [unfold add; by rewrite Hd, Hd' |].
  intros w1 Hw1.
  destruct (add_Done_inv L isDest _ _ _ _ _ Hw1)
    as (content & out & p & Hc & Hi & Hp & ->).
  rewrite Hd in Hp. injection Hp as <-. cbn [files]. split.
  - exists content, out. split; [done |]. split; [done |].
    apply lookup_insert_eq.
  - intros p Hp. by rewrite lookup_insert_ne.
Qed.

Lemma add_in_place_witness :
  let w := {| files := {[ "README.md" := marker_doc ]}; console := [] |} in
  isDest_model (DestOptions (set_maxDepth 1 default_opts)) = true /\
  isDest_model DestUndefined = true /\
  add StandIn.libs isDest_model w "README.md"
      (DestOptions (set_maxDepth 1 default_opts)) None
  = add StandIn.libs isDest_model w "README.md" DestUndefined None.
Proof.
  intros w. split; [reflexivity |]. split; [reflexivity |].
  exact (proj1 (add_in_place StandIn.libs isDest_model w "README.md"
                  (DestOptions (set_maxDepth 1 default_opts)) DestUndefined
                  None eq_refl eq_refl)).
Defined.

(** X11: writing to a destination other than the source leaves the
    source as it is, so that a second run on the same paths completes
    and writes the same text again: the files are the same after the
    second run as after the first. *)
Theorem add_to_dest_stable (L : Libs) (isDest : dest_arg -> bool)
    (w w1 : world) (fp q : string) (options : option opts) :
  q <> fp ->
  isDest (DestPath q) = false ->
  add L isDest w fp (DestPath q) options = Done w1 ->
  files w1 !! fp = files w !! fp /\
  exists w2,
    add L isDest w1 fp (DestPath q) options = Done w2 /\
    files w2 = files w1.
Proof.
  intros Hq Hd Hw1.
  destruct (add_Done_inv L isDest _ _ _ _ _ Hw1)
    as (content & out & p & Hc & Hi & Hp & ->).
  rewrite Hd in Hp. injection Hp as <-. cbn [files].
  assert (Hsrc : <[q := out]> (files w) !! fp = files w !! fp)
    by by rewrite lookup_insert_ne.
  split; [exact Hsrc |].
  unfold add. cbn [files console]. rewrite Hsrc, Hc, Hd, Hi.
  eexists. split; [reflexivity |]. cbn [files].
  by rewrite insert_insert_eq.
Qed.

Lemma add_to_dest_stable_witness :
  let w := {| files := {[ "docs/in.md" := marker_doc ]}; console := [] |} in
  exists w1 w2,
    add StandIn.libs isDest_model w "docs/in.md" (DestPath "out.md") None
    = Done w1 /\
    add StandIn.libs isDest_model w1 "docs/in.md" (DestPath "out.md") None
    = Done w2 /\
    files w2 = files w1.
Proof.
  intros w.
  destruct (add StandIn.libs isDest_model w "docs/in.md" (DestPath "out.md")
                None) as [w1|e] eqn:Hw1; [|vm_compute in Hw1; discriminate].
  assert (Hq : "out.md" <> "docs/in.md") by discriminate.
  destruct (add_to_dest_stable StandIn.libs isDest_model w w1 "docs/in.md"
              "out.md" None Hq eq_refl Hw1) as (_ & w2 & Hw2 & Hfiles).
  by exists w1, w2.
Defined.

(** ** Indentation and nesting *)

(** X13: indentation mirrors nesting. On a token stream whose heading
    depths are at least 1, any two records of [data] stem from two
    heading tokens, of depths [d1] and [d2], whose display texts are the
    [heading] fields of the records, and the indent strings in the
    [depth] fields of the records differ in length by [2 * (d1 - d2)],
    whether the depths were rebased or not. *)
Theorem indentation_mirrors_nesting (L : Libs) (o : opts)
    (tokens : list token) (r : toc_result) (rec1 rec2 : gmap string jsval) :
  (forall d txt, Heading d txt ∈ tokens -> 1 <= d) ->
  generate_tokens L tokens o = Normal r ->
  rec1 ∈ res_data r ->
  rec2 ∈ res_data r ->
  exists d1 txt1 d2 txt2 s1 s2,
    Heading d1 txt1 ∈ tokens /\
    Heading d2 txt2 ∈ tokens /\
    rec1 !! "heading" = Some (JStr (heading_text L o txt1)) /\
    rec2 !! "heading" = Some (JStr (heading_text L o txt2)) /\
    rec1 !! "depth" = Some (JStr s1) /\
    rec2 !! "depth" = Some (JStr s2) /\
    Z.of_nat (String.length s1) - Z.of_nat (String.length s2)
    = 2 * (d1 - d2).
Proof.
  intros Hpos Hr Hrec1 Hrec2.
  assert (Horigin : forall rec, rec ∈ res_data r ->
            exists d txt s,
              Heading d txt ∈ tokens /\
              rec !! "heading" = Some (JStr (heading_text L o txt)) /\
              rec !! "depth" = Some (JStr s) /\
              Z.of_nat (String.length s)
              = 2 * (d - (if any_depth_1 (shift_first o tokens)
                          then 1 else 2))).
  { intros rec Hrec.
    destruct (generate_tokens_record L _ _ _ _ Hr Hrec) as (h & Hh & _ & Hb).
    apply build_record_fields in Hb as (Hd & Hdepth & _ & Hhead & _).
    apply elem_of_filtered in Hh as (t & Hin & Hcb).
    apply filter_callback_Some in Hcb as (d & txt & -> & _ & ->).
    cbn in Hd, Hdepth, Hhead.
    exists d, txt, (spaces (Z.to_nat
             (((if any_depth_1 (shift_first o tokens) then d else d - 1) - 1)
              * 2))).
    split; [by apply (shift_first_subseteq o) |].
    split; [exact Hhead |]. split; [exact Hdepth |].
    rewrite spaces_length.
    destruct (any_depth_1 (shift_first o tokens)); lia. }
  destruct (Horigin rec1 Hrec1) as (d1 & txt1 & s1 & Hin1 & Hh1 & Hs1 & Hl1).
  destruct (Horigin rec2 Hrec2) as (d2 & txt2 & s2 & Hin2 & Hh2 & Hs2 & Hl2).
  exists d1, txt1, d2, txt2, s1, s2.
  repeat (split; [done |]). rewrite Hl1, Hl2. lia.
Qed.

Lemma indentation_mirrors_nesting_witness :
  (forall d txt, Heading d txt ∈ example_tokens -> 1 <= d) /\
  exists r d1 txt1 d2 txt2 s1 s2,
    generate_tokens StandIn.libs example_tokens default_opts = Normal r /\
    Heading d1 txt1 ∈ example_tokens /\
    Heading d2 txt2 ∈ example_tokens /\
    context "  " "* " "B" "b" !! "depth" = Some (JStr s1) /\
    context "" "* " "A" "a" !! "depth" = Some (JStr s2) /\
    Z.of_nat (String.length s1) - Z.of_nat (String.length s2)
    = 2 * (d1 - d2).
Proof.
  split; [exact example_tokens_positive |].
  destruct (generate_tokens StandIn.libs example_tokens default_opts)
    as [r|err] eqn:Hr; [|vm_compute in Hr; discriminate].
  assert (Hdata : res_data r = [context "" "* " "A" "a";
                                context "  " "* " "B" "b";
                                context "" "* " "C" "c"]).
  { vm_compute in Hr. injection Hr as <-. vm_compute. reflexivity. }
  destruct (indentation_mirrors_nesting StandIn.libs default_opts
              example_tokens r (context "  " "* " "B" "b")
              (context "" "* " "A" "a") example_tokens_positive Hr)
    as (d1 & txt1 & d2 & txt2 & s1 & s2 & H1 & H2 & _ & _ & H5 & H6 & H7).
  - rewrite Hdata. apply elem_of_cons. right. apply elem_of_cons. by left.
  - rewrite Hdata. apply elem_of_cons. by left.
  - exists r, d1, txt1, d2, txt2, s1, s2. by repeat split.
Defined.
